(** * Relation extraction: span planning, triplet parsing, batch orchestration

    A shallow embedding of [src/utils/relation_extraction.py]:

    - the span-boundary computation at the head of [run_relation_extraction]
      (lines 64-77) and the slicing of the token ids (lines 80-87);
    - the token-stream state machine [extract_relations_from_model_output]
      (lines 11-55);
    - the batch loop of [run_relation_extraction] (lines 89-151), with the
      cancellation token and the generation model as external collaborators.

    Python integers are unbounded, so they are [Z].  A Python [str] is a
    sequence of Unicode code points, so it is a [list N].  The two uses of
    [math.ceil(a / b)] go through a float quotient in the source; they are
    modelled by the exact integer ceiling, which agrees with the float
    computation for all operands below 2^53 (token counts are far below). *)

From Stdlib Require Import String Ascii.
From Stdlib Require Import ZArith NArith List Bool Lia.
Import ListNotations.

#[local] Open Scope Z_scope.

(** ** Python primitives used by the source *)

Module Py.

(** [math.ceil(a / b)] for integers [a] and [b <> 0]. *)
Definition ceil_div (a b : Z) : Z := - ((- a) / b).

(** [range(n)]: empty when [n <= 0]. *)
Definition range (n : Z) : list Z := map Z.of_nat (seq 0 (Z.to_nat n)).

(** Index adjustment of a slice bound against a sequence of length [len]:
    a negative bound counts from the end, and the result is clamped to
    [0 .. len]. *)
Definition slice_index (len i : Z) : Z :=
  if i <? 0 then Z.max (i + len) 0 else Z.min i len.

(** [l[a:b]] on a list or on the first axis of a tensor. *)
Definition slice {A : Type} (l : list A) (a b : Z) : list A :=
  let len := Z.of_nat (length l) in
  let lo := slice_index len a in
  let hi := slice_index len b in
  firstn (Z.to_nat (hi - lo)) (skipn (Z.to_nat lo) l).

End Py.

(** ** Span planner (lines 64-77) *)

Definition SpanBoundary : Type := (Z * Z)%type.

(** The constant of line 59. *)
Definition span_length : Z := 256.

(** Line 65. *)
Definition num_spans (num_tokens span_length : Z) : Z :=
  Py.ceil_div num_tokens span_length.

(** Line 66. *)
Definition overlap (num_tokens span_length : Z) : Z :=
  let num_spans := num_spans num_tokens span_length in
  Py.ceil_div (num_spans * span_length - num_tokens) (Z.max (num_spans - 1) 1).

(** The loop of lines 73-77, with its two mutable variables [start] and
    [spans_boundaries] passed explicitly. *)
Fixpoint spans_loop (span_length overlap : Z) (indices : list Z)
    (start : Z) (spans_boundaries : list SpanBoundary) : list SpanBoundary :=
  match indices with
  | [] => spans_boundaries
  | i :: rest =>
      spans_loop span_length overlap rest (start - overlap)
        (spans_boundaries
           ++ [(start + span_length * i, start + span_length * (i + 1))])
  end.

(** Lines 64-77 as a function of the token count and the span length. *)
Definition spans_boundaries (num_tokens span_length : Z) : list SpanBoundary :=
  spans_loop span_length (overlap num_tokens span_length)
    (Py.range (num_spans num_tokens span_length)) 0 [].

(** A token index is covered when some boundary's [start, end) holds it. *)
Definition covers (b : SpanBoundary) (t : Z) : bool :=
  (fst b <=? t) && (t <? snd b).

Definition covered (bs : list SpanBoundary) (t : Z) : bool :=
  existsb (fun b => covers b t) bs.

(** Lines 80-83: the windows cut out of the token ids. *)
Definition tensor_slices {A : Type} (ids : list A) (bs : list SpanBoundary)
    : list (list A) :=
  map (fun boundary => Py.slice ids (fst boundary) (snd boundary)) bs.

(** Boundary [i] in closed form: each window starts [span_length - overlap]
    tokens after the previous one. *)
Definition boundary_at (span_length overlap i : Z) : SpanBoundary :=
  ((span_length - overlap) * i, (span_length - overlap) * i + span_length).

(** The end offset of the last boundary of the plan. *)
Definition last_end (num_tokens span_length : Z) : Z :=
  snd (boundary_at span_length (overlap num_tokens span_length)
         (num_spans num_tokens span_length - 1)).

(** ** Strings *)

(** A Python [str]: a sequence of code points. *)
Definition str : Type := list N.

(** An ASCII literal as a [str]. *)
Definition lit (s : String.string) : str :=
  map Ascii.N_of_ascii (String.list_ascii_of_string s).

Arguments lit s%_string.

Definition str_eqb (a b : str) : bool :=
  if list_eq_dec N.eq_dec a b then true else false.

Definition is_empty (s : str) : bool :=
  match s with [] => true | _ :: _ => false end.

Module PyStr.

(** The code points that [str.strip()] and [str.split()] treat as white
    space. *)
Definition isspace (c : N) : bool :=
  ((9 <=? c) && (c <=? 13) || (28 <=? c) && (c <=? 32)
   || (c =? 133) || (c =? 160) || (c =? 5760)
   || (8192 <=? c) && (c <=? 8202)
   || (c =? 8232) || (c =? 8233) || (c =? 8239) || (c =? 8287)
   || (c =? 12288))%N.

Fixpoint lstrip (s : str) : str :=
  match s with
  | [] => []
  | c :: s' => if isspace c then lstrip s' else s
  end.

Definition rstrip (s : str) : str := rev (lstrip (rev s)).

(** [s.strip()] *)
Definition strip (s : str) : str := rstrip (lstrip s).

Fixpoint starts_with (old s : str) : bool :=
  match old, s with
  | [], _ => true
  | _ :: _, [] => false
  | a :: old', c :: s' => (a =? c)%N && starts_with old' s'
  end.

(** [s.replace(old, new)] for a non-empty [old]: the occurrences of [old]
    are found from left to right and do not overlap.  [skip] counts the
    code points of a found occurrence that are still to be passed over. *)
Fixpoint replace_from (old new : str) (skip : nat) (s : str) : str :=
  match s with
  | [] => []
  | c :: s' =>
      match skip with
      | S k => replace_from old new k s'
      | O =>
          if starts_with old s
          then new ++ replace_from old new (pred (length old)) s'
          else c :: replace_from old new O s'
      end
  end.

Definition replace (old new s : str) : str := replace_from old new O s.

(** [s.split()]: maximal runs of non-space code points.  [word] is the run
    being read. *)
Fixpoint split_from (word : str) (s : str) : list str :=
  match s with
  | [] => if is_empty word then [] else [word]
  | c :: s' =>
      if isspace c
      then (if is_empty word then split_from [] s'
            else word :: split_from [] s')
      else split_from (word ++ [c]) s'
  end.

Definition split (s : str) : list str := split_from [] s.

End PyStr.

(** ** Triplet parser (lines 11-55) *)

Record Meta : Type := { information : str }.

(** The dict built at lines 22-26, 34-38 and 53; the key ["meta"] is absent
    until line 138 sets it. *)
Record Relation : Type := {
  head : str;
  type : str;
  tail : str;
  meta : option Meta
}.

(** The values of the variable [current]: ["x"], ["t"], ["s"], ["o"]. *)
Inductive Current : Type := cur_x | cur_t | cur_s | cur_o.

(** The local variables of [extract_relations_from_model_output]. *)
Record ParserState : Type := {
  relations : list Relation;
  subject : str;
  relation : str;
  object_ : str;
  current : Current
}.

(** Line 13 and line 15. *)
Definition parser_init : ParserState :=
  {| relations := []; subject := []; relation := []; object_ := [];
     current := cur_x |}.

(** The dict literal of the three flushes. *)
Definition triplet_of (st : ParserState) : Relation :=
  {| head := PyStr.strip (subject st);
     type := PyStr.strip (relation st);
     tail := PyStr.strip (object_ st);
     meta := None |}.

(** One iteration of the loop of lines 17-50. *)
Definition parser_step (st : ParserState) (token : str) : ParserState :=
  if str_eqb token (lit "<triplet>") then
    if negb (is_empty (relation st)) then
      {| relations := relations st ++ [triplet_of st];
         subject := []; relation := []; object_ := object_ st;
         current := cur_t |}
    else
      {| relations := relations st;
         subject := []; relation := relation st; object_ := object_ st;
         current := cur_t |}
  else if str_eqb token (lit "<subj>") then
    {| relations :=
         if negb (is_empty (relation st))
         then relations st ++ [triplet_of st] else relations st;
       subject := subject st; relation := relation st; object_ := [];
       current := cur_s |}
  else if str_eqb token (lit "<obj>") then
    {| relations := relations st;
       subject := subject st; relation := []; object_ := object_ st;
       current := cur_o |}
  else
    match current st with
    | cur_t =>
        {| relations := relations st;
           subject := subject st ++ lit " " ++ token;
           relation := relation st; object_ := object_ st;
           current := cur_t |}
    | cur_s =>
        {| relations := relations st;
           subject := subject st; relation := relation st;
           object_ := object_ st ++ lit " " ++ token;
           current := cur_s |}
    | cur_o =>
        {| relations := relations st;
           subject := subject st;
           relation := relation st ++ lit " " ++ token;
           object_ := object_ st;
           current := cur_o |}
    | cur_x => st
    end.

(** Lines 51-55: the flush at the end of the stream. *)
Definition parser_finish (st : ParserState) : list Relation :=
  if negb (is_empty (subject st)) && negb (is_empty (relation st))
     && negb (is_empty (object_ st))
  then relations st ++ [triplet_of st]
  else relations st.

(** Lines 14, 16 and the iterable of line 17. *)
Definition token_stream (text : str) : list str :=
  let text := PyStr.strip text in
  let text_replaced :=
    PyStr.replace (lit "</s>") []
      (PyStr.replace (lit "<pad>") [] (PyStr.replace (lit "<s>") [] text)) in
  PyStr.split text_replaced.

Definition extract_relations_from_model_output (text : str) : list Relation :=
  parser_finish (fold_left parser_step (token_stream text) parser_init).

(** The three control markers. *)
Definition is_marker (token : str) : bool :=
  str_eqb token (lit "<triplet>") || str_eqb token (lit "<subj>")
  || str_eqb token (lit "<obj>").

(** A triplet with its three parts present. *)
Definition complete (r : Relation) : bool :=
  negb (is_empty (head r)) && negb (is_empty (type r))
  && negb (is_empty (tail r)).

(** What the end-of-stream flush of lines 51-54 adds to the list. *)
Definition flushed_at_end (st : ParserState) : list Relation :=
  skipn (length (relations st)) (parser_finish st).

(** No token of the stream is a control marker. *)
Definition marker_free (tokens : list str) : bool :=
  forallb (fun token => negb (is_marker token)) tokens.

(** The number of control markers in a stream. *)
Definition count_markers (tokens : list str) : nat :=
  length (filter is_marker tokens).

(** One more triplet can still come out of the markers read so far: an
    [<obj>] was read and its relation type was not cleared since. *)
Definition pending (st : ParserState) : nat :=
  match current st with
  | cur_o => 1
  | _ => if is_empty (relation st) then 0 else 1
  end.

(** Some code point of the string is not white space. *)
Definition has_nonspace (s : str) : bool :=
  existsb (fun c => negb (PyStr.isspace c)) s.

(** A buffer of the parser is empty or holds a code point that [strip]
    keeps. *)
Definition buffer_ok (s : str) : bool := is_empty s || has_nonspace s.

(** The invariant of the loop of lines 17-50: every triplet flushed so far
    has a non-empty type, and each buffer is empty or holds a code point
    that [strip] keeps. *)
Record parser_inv (st : ParserState) : Prop := {
  inv_types : Forall (fun r => is_empty (type r) = false) (relations st);
  inv_subject : buffer_ok (subject st) = true;
  inv_relation : buffer_ok (relation st) = true;
  inv_object : buffer_ok (object_ st) = true
}.

(** *** Well-formed streams *)

(** A token as [split] yields them, not empty and free of white space,
    that is no control marker. *)
Definition plain (token : str) : bool :=
  negb (is_empty token)
  && forallb (fun c => negb (PyStr.isspace c)) token
  && negb (is_marker token).

(** A buffer after the tokens [ts] were added to it by lines 46, 48 or 50:
    each token with a space before it. *)
Definition buffer_of (ts : list str) : str :=
  concat (map (fun token => lit " " ++ token) ts).

(** Tokens joined by single spaces. *)
Definition join_tokens (ts : list str) : str :=
  match ts with
  | [] => []
  | token :: rest => token ++ buffer_of rest
  end.

(** A phrase: one plain token or more. *)
Definition phrase_ok (ts : list str) : bool :=
  match ts with
  | [] => false
  | _ :: _ => forallb plain ts
  end.

(** The linear form of the triplets that share a head: the head, then for
    each of them its tail and its relation type. *)
Definition Group : Type := (list str * list (list str * list str))%type.

Definition encode_pair (p : list str * list str) : list str :=
  lit "<subj>" :: fst p ++ lit "<obj>" :: snd p.

Definition encode_group (g : Group) : list str :=
  lit "<triplet>" :: fst g ++ flat_map encode_pair (snd g).

Definition relation_of (h t r : list str) : Relation :=
  {| head := join_tokens h; type := join_tokens r; tail := join_tokens t;
     meta := None |}.

Definition decode_group (g : Group) : list Relation :=
  map (fun p => relation_of (fst g) (fst p) (snd p)) (snd g).

Definition pair_ok (p : list str * list str) : bool :=
  phrase_ok (fst p) && phrase_ok (snd p).

Definition group_ok (g : Group) : bool :=
  phrase_ok (fst g)
  && match snd g with [] => false | _ :: _ => forallb pair_ok (snd g) end.

(** The state of the parser when the relation type [r] of a triplet with
    head [h] and tail [t] has been read. *)
Definition state_after (acc : list Relation) (h t r : list str)
    : ParserState :=
  {| relations := acc; subject := buffer_of h; relation := buffer_of r;
     object_ := buffer_of t; current := cur_o |}.

(** No token of the stream is the marker [<obj>]. *)
Definition obj_free (tokens : list str) : bool :=
  forallb (fun token => negb (str_eqb token (lit "<obj>"))) tokens.

(** A phrase made of plain tokens of the stream [tokens]. *)
Definition phrase_from (tokens : list str) (ts : list str) : Prop :=
  Forall (fun token => In token tokens /\ plain token = true) ts.

(** A triplet whose three parts are (possibly empty) phrases of plain
    tokens of the stream, joined by single spaces. *)
Definition from_tokens (tokens : list str) (r : Relation) : Prop :=
  exists h t ty : list str,
    r = relation_of h t ty
    /\ phrase_from tokens h /\ phrase_from tokens t
    /\ phrase_from tokens ty.

(** The buffers hold phrases of the stream and so do the triplets flushed
    so far. *)
Definition fields_inv (tokens : list str) (st : ParserState) : Prop :=
  (exists h, subject st = buffer_of h /\ phrase_from tokens h)
  /\ (exists ty, relation st = buffer_of ty /\ phrase_from tokens ty)
  /\ (exists t, object_ st = buffer_of t /\ phrase_from tokens t)
  /\ Forall (from_tokens tokens) (relations st).

(** ** Batch orchestrator (lines 58-151) *)

(** The exceptions the modelled operations can raise.  [UpstreamFailure] is
    whatever [model.generate] raises. *)
Inductive exn : Type :=
  | RuntimeError
  | IndexError
  | ValueError
  | UpstreamFailure (tag : Z).

Inductive result (A : Type) : Type :=
  | Ok (a : A)
  | Raise (e : exn).

Arguments Ok {A} a.
Arguments Raise {A} e.

(** What [run_relation_extraction] returns: the list of line 151, or the
    [TimeoutError] object that line 145 returns (it is returned, not
    raised). *)
Inductive value : Type :=
  | Relations (rs : list Relation)
  | TimeoutError (msg : str).

(** A one-dimensional tensor of token ids or mask bits, and a stacked one. *)
Definition Tensor : Type := list Z.
Definition Tensor2 : Type := list Tensor.

(** The dict of lines 110-115. *)
Record BatchInputs : Type := {
  input_ids : Tensor2;
  attention_mask : Tensor2
}.

(** What the run leaves behind: the number of times the cancellation token
    was polled, and the arguments of the calls of [model.generate], oldest
    first. *)
Record World : Type := {
  polls : nat;
  generate_calls : list BatchInputs
}.

Definition world_init : World := {| polls := 0; generate_calls := [] |}.

(** Computations that read and write the world and may raise. *)
Definition M (A : Type) : Type := World -> result A * World.

Definition ret {A : Type} (a : A) : M A := fun w => (Ok a, w).

Definition bind {A B : Type} (m : M A) (f : A -> M B) : M B :=
  fun w =>
    match m w with
    | (Ok a, w') => f a w'
    | (Raise e, w') => (Raise e, w')
    end.

Definition lift {A : Type} (r : result A) : M A := fun w => (r, w).

Notation "x <- m ;; k" := (bind m (fun x => k))
  (at level 61, m at next level, right associativity).

Module Torch.

Definition same_size (ts : list Tensor) : bool :=
  match ts with
  | [] => true
  | t :: ts' => forallb (fun t' => (length t' =? length t)%nat) ts'
  end.

(** [torch.stack(ts)]: refuses an empty list and tensors of unequal
    size. *)
Definition stack (ts : list Tensor) : result Tensor2 :=
  match ts with
  | [] => Raise RuntimeError
  | _ :: _ => if same_size ts then Ok ts else Raise RuntimeError
  end.

End Torch.

(** [range(start, stop, step)] *)
Definition range3 (start stop step : Z) : result (list Z) :=
  if step =? 0 then Raise ValueError
  else if 0 <? step
  then Ok (map (fun i => start + step * i)
             (Py.range (Py.ceil_div (stop - start) step)))
  else Ok (map (fun i => start + step * i)
             (Py.range (Py.ceil_div (start - stop) (- step)))).

(** The constant of line 95. *)
Definition num_return_sequences : Z := 10.

(** The message of line 145. *)
Definition timeout_message : str := lit "Task cancelled due to timeout".

(** Line 138. *)
Definition set_meta (current_span_text : str) (r : Relation) : Relation :=
  {| head := head r; type := type r; tail := tail r;
     meta := Some {| information := current_span_text |} |}.

Section Orchestrator.

(** The collaborators: the tokenizer applied to one text (row 0 of its
    [input_ids] and of its [attention_mask]), its [decode] with the flag
    [skip_special_tokens], the generation model on one batch (with the fixed
    [gen_kwargs] of lines 96-101), the configured batch size, and the answer
    of the cancellation token at its [k]-th poll. *)
Variable tokenizer : str -> Tensor * Tensor.
Variable decode : bool -> Tensor -> str.
Variable generate : BatchInputs -> result Tensor2.
Variable batch_size : Z.
Variable cancelled : nat -> bool.

(** [cancellation_token.is_cancelled()] *)
Definition is_cancelled : M bool :=
  fun w =>
    (Ok (cancelled (polls w)),
     {| polls := S (polls w); generate_calls := generate_calls w |}).

(** The call of [model.generate] at lines 118-121, on the batch inputs and
    the fixed generation arguments. *)
Definition model_generate (batch_inputs : BatchInputs) : M Tensor2 :=
  fun w =>
    (generate batch_inputs,
     {| polls := polls w;
        generate_calls := generate_calls w ++ [batch_inputs] |}).

(** [tokenizer.batch_decode(ts, skip_special_tokens=skip)] *)
Definition batch_decode (ts : Tensor2) (skip : bool) : list str :=
  map (decode skip) ts.

(** The loop of lines 129-142; [i] is the position given by [enumerate]. *)
Fixpoint process_preds (batch_input_ids : Tensor2) (i : Z)
    (preds : list str) (relations : list Relation)
    : result (list Relation) :=
  match preds with
  | [] => Ok relations
  | sentence_pred :: rest =>
      match nth_error batch_input_ids (Z.to_nat (i / num_return_sequences)) with
      | None => Raise IndexError
      | Some current_span_input_ids =>
          let current_span_text := decode true current_span_input_ids in
          let current_relations :=
            extract_relations_from_model_output sentence_pred in
          let current_relations :=
            map (set_meta current_span_text) current_relations in
          process_preds batch_input_ids (i + 1) rest
            (relations ++ current_relations)
      end
  end.

(** Lines 108-142: one batch that was not cancelled. *)
Definition run_batch (tensor_ids tensor_masks : list Tensor)
    (batch_start : Z) (relations : list Relation) : M (list Relation) :=
  let batch_end :=
    Z.min (batch_start + batch_size) (Z.of_nat (length tensor_ids)) in
  ids <- lift (Torch.stack (Py.slice tensor_ids batch_start batch_end)) ;;
  masks <- lift (Torch.stack (Py.slice tensor_masks batch_start batch_end)) ;;
  let batch_inputs := {| input_ids := ids; attention_mask := masks |} in
  batch_generated_tokens <- model_generate batch_inputs ;;
  let batch_decoded_preds := batch_decode batch_generated_tokens false in
  lift (process_preds (input_ids batch_inputs) 0 batch_decoded_preds relations).

(** The loop of lines 106-145 over the values of [batch_start]. *)
Fixpoint batch_loop (tensor_ids tensor_masks : list Tensor)
    (batch_starts : list Z) (relations : list Relation) : M value :=
  match batch_starts with
  | [] => ret (Relations relations)
  | batch_start :: rest =>
      c <- is_cancelled ;;
      if negb c then
        relations' <- run_batch tensor_ids tensor_masks batch_start relations ;;
        batch_loop tensor_ids tensor_masks rest relations'
      else ret (TimeoutError timeout_message)
  end.

Definition run_relation_extraction (text : str) : M value :=
  let inputs := tokenizer text in
  let num_tokens := Z.of_nat (length (fst inputs)) in
  let boundaries := spans_boundaries num_tokens span_length in
  let tensor_ids := tensor_slices (fst inputs) boundaries in
  let tensor_masks := tensor_slices (snd inputs) boundaries in
  _ <- lift (Torch.stack tensor_ids) ;;
  _ <- lift (Torch.stack tensor_masks) ;;
  batch_starts <-
    lift (range3 0 (Z.of_nat (length tensor_ids)) batch_size) ;;
  batch_loop tensor_ids tensor_masks batch_starts [].

(** *** The orchestrator as the specification words it *)

(** The windows of a text. *)
Definition windows_of (ids : Tensor) : list Tensor :=
  tensor_slices ids
    (spans_boundaries (Z.of_nat (length ids)) span_length).

(** Batch [j]: the windows [batch_size * j] to
    [batch_size * j + batch_size], as far as there are any. *)
Definition batch_at (ws ms : list Tensor) (j : Z) : BatchInputs :=
  {| input_ids :=
       Py.slice ws (batch_size * j) (batch_size * j + batch_size);
     attention_mask :=
       Py.slice ms (batch_size * j) (batch_size * j + batch_size) |}.

(** Consecutive batches of [batch_size] windows, the last one possibly
    smaller. *)
Definition batches_of (ws ms : list Tensor) : list BatchInputs :=
  map (batch_at ws ms)
    (Py.range (Py.ceil_div (Z.of_nat (length ws)) batch_size)).

(** The windows of the token ids and of the mask of a text, and the number
    of its batches. *)
Definition text_windows (text : str) : list Tensor :=
  windows_of (fst (tokenizer text)).

Definition text_masks (text : str) : list Tensor :=
  windows_of (snd (tokenizer text)).

Definition num_batches (text : str) : Z :=
  Py.ceil_div (Z.of_nat (length (text_windows text))) batch_size.

Definition text_batches (text : str) : list BatchInputs :=
  batches_of (text_windows text) (text_masks text).

(** The candidates the model returns for a batch. *)
Definition candidates_of (b : BatchInputs) : Tensor2 :=
  match generate b with Ok cs => cs | Raise _ => [] end.

(** The source window of the candidate at position [pos] of a batch. *)
Definition source_window (b : BatchInputs) (pos : nat) : Tensor :=
  nth (Z.to_nat (Z.of_nat pos / num_return_sequences)) (input_ids b) [].

(** The triplets of one candidate, tagged with the text of its source
    window. *)
Definition candidate_relations (b : BatchInputs) (pos : nat)
    (candidate : Tensor) : list Relation :=
  map (set_meta (decode true (source_window b pos)))
    (extract_relations_from_model_output (decode false candidate)).

(** The triplets of one batch: those of its candidates, in the order the
    model returned them. *)
Definition batch_relations (b : BatchInputs) : list Relation :=
  concat
    (map (fun pc => candidate_relations b (fst pc) (snd pc))
       (combine (seq 0 (length (candidates_of b))) (candidates_of b))).

(** The result of a run that is not cancelled: the triplets of its
    batches, in order. *)
Definition spec_relations (text : str) : list Relation :=
  flat_map batch_relations (text_batches text).

(** The model kept its contract on a batch: it returned, with at most
    [num_return_sequences] candidates per window. *)
Definition generate_ok (b : BatchInputs) : bool :=
  match generate b with
  | Ok cs =>
      Z.of_nat (length cs)
      <=? num_return_sequences * Z.of_nat (length (input_ids b))
  | Raise _ => false
  end.

(** Batch [j] exists and the model keeps its contract on it. *)
Definition batch_fine (ws ms : list Tensor) (j : Z) : Prop :=
  0 <= j /\ batch_size * j < Z.of_nat (length ws)
  /\ generate_ok (batch_at ws ms j) = true.

(** The tokenizer returned at least one token id and a mask of the same
    length. *)
Definition tokenizer_ok (text : str) : bool :=
  (0 <? length (fst (tokenizer text)))%nat
  && (length (snd (tokenizer text)) =? length (fst (tokenizer text)))%nat.

(** What lines 118-142 make of a batch once it is stacked: the failure of
    the model, or the outcome of the loop over its candidates. *)
Definition batch_outcome (b : BatchInputs) (relations : list Relation)
    : result (list Relation) :=
  match generate b with
  | Raise e => Raise e
  | Ok batch_generated_tokens =>
      process_preds (input_ids b) 0
        (batch_decode batch_generated_tokens false) relations
  end.

(** [j] is the index of a batch of the windows [ws]. *)
Definition batch_exists (ws : list Tensor) (j : Z) : Prop :=
  0 <= j /\ batch_size * j < Z.of_nat (length ws).

(** How a run ended, given the number [k] of calls of the model it made
    and the number [n] of batches planned. *)
Definition run_ending (r : result value) (w : World) (k n : nat) : Prop :=
  match r with
  | Ok (Relations _) => k = n /\ polls w = k
  | Ok (TimeoutError _) =>
      (k < n)%nat /\ cancelled k = true /\ polls w = S k
  | Raise _ => (0 < k)%nat /\ polls w = k
  end.

End Orchestrator.

(** ** Stand-ins for the collaborators

    A tokenizer that takes each code point for a token, the matching
    decoder, and a model that answers every window with
    [num_return_sequences] copies of one well-formed triplet. *)

Module Toy.

Definition tokenizer (text : str) : Tensor * Tensor :=
  (map Z.of_N text, map (fun _ => 1) text).

Definition decode (skip_special_tokens : bool) (ids : Tensor) : str :=
  map Z.to_N ids.

Definition candidate : Tensor :=
  map Z.of_N (lit "<triplet> A <subj> B <obj> C").

Definition generate (b : BatchInputs) : result Tensor2 :=
  Ok (flat_map (fun _ => repeat candidate (Z.to_nat num_return_sequences))
        (input_ids b)).

(** A document of 600 tokens: three windows, two batches of size 2. *)
Definition text : str := repeat 97%N 600.

Definition never_cancelled (k : nat) : bool := false.

Definition cancelled_at_second_poll (k : nat) : bool := (k =? 1)%nat.

(** A model that fails on a batch of one window. *)
Definition generate_failing (b : BatchInputs) : result Tensor2 :=
  if (length (input_ids b) =? 1)%nat then Raise (UpstreamFailure 7)
  else generate b.

(** A model that returns one candidate too many on a batch of one
    window. *)
Definition generate_surplus (b : BatchInputs) : result Tensor2 :=
  if (length (input_ids b) =? 1)%nat then Ok (repeat candidate 11)
  else generate b.

End Toy.

(** ** Arithmetic of the ceiling *)

Section CeilDiv.

Lemma ceil_div_bounds (a b : Z) :
  0 < b -> (Py.ceil_div a b - 1) * b < a <= Py.ceil_div a b * b.
Proof.
  intros Hb. unfold Py.ceil_div.
  pose proof (Z.div_mod (- a) b ltac:(lia)) as Hdm.
  pose proof (Z.mod_pos_bound (- a) b Hb) as Hm.
  nia.
Qed.

Lemma ceil_div_nonneg (a b : Z) : 0 < b -> 0 <= a -> 0 <= Py.ceil_div a b.
Proof.
  intros Hb Ha. pose proof (ceil_div_bounds a b Hb). nia.
Qed.

Lemma ceil_div_one (a b : Z) : 0 < a <= b -> Py.ceil_div a b = 1.
Proof.
  intros H. pose proof (ceil_div_bounds a b ltac:(lia)). nia.
Qed.

Lemma ceil_div_by_one (a : Z) : Py.ceil_div a 1 = a.
Proof.
  unfold Py.ceil_div. rewrite Z.div_1_r. lia.
Qed.

End CeilDiv.

(** ** The loop in closed form *)

Lemma spans_loop_closed (L ov : Z) (m a : nat) (acc : list SpanBoundary) :
  spans_loop L ov (map Z.of_nat (seq a m)) (- ov * Z.of_nat a) acc
  = acc ++ map (boundary_at L ov) (map Z.of_nat (seq a m)).
Proof.
  revert a acc. induction m as [|m IH]; intros a acc; simpl.
  - now rewrite app_nil_r.
  - replace (- ov * Z.of_nat a - ov) with (- ov * Z.of_nat (S a)) by lia.
    rewrite IH, <- app_assoc. simpl. do 2 f_equal.
    unfold boundary_at. f_equal; lia.
Qed.

Lemma spans_boundaries_closed (n L : Z) :
  spans_boundaries n L
  = map (boundary_at L (overlap n L)) (Py.range (num_spans n L)).
Proof.
  unfold spans_boundaries, Py.range.
  pose proof (spans_loop_closed L (overlap n L)
                (Z.to_nat (num_spans n L)) 0 []) as H.
  simpl in H. replace (- overlap n L * 0) with 0 in H by lia. exact H.
Qed.

Lemma in_range (n i : Z) : In i (Py.range n) <-> 0 <= i < n.
Proof.
  unfold Py.range. rewrite in_map_iff. split.
  - intros (j & <- & Hj). apply in_seq in Hj. lia.
  - intros H. exists (Z.to_nat i). split; [lia|]. apply in_seq. lia.
Qed.

Lemma length_range (n : Z) : length (Py.range n) = Z.to_nat n.
Proof.
  unfold Py.range. now rewrite length_map, length_seq.
Qed.

Lemma spans_boundaries_length (n L : Z) :
  length (spans_boundaries n L) = Z.to_nat (num_spans n L).
Proof.
  now rewrite spans_boundaries_closed, length_map, length_range.
Qed.

Lemma spans_boundaries_width (n L : Z) :
  Forall (fun b => snd b - fst b = L) (spans_boundaries n L).
Proof.
  rewrite spans_boundaries_closed. apply Forall_forall.
  intros b Hb. apply in_map_iff in Hb as (i & <- & _).
  unfold boundary_at. simpl. lia.
Qed.

(** ** Bounds on the span count and on the overlap *)

Lemma num_spans_bounds (n L : Z) :
  0 < L -> (num_spans n L - 1) * L < n <= num_spans n L * L.
Proof. intros HL. unfold num_spans. now apply ceil_div_bounds. Qed.

Lemma num_spans_nonneg (n L : Z) : 0 <= n -> 0 < L -> 0 <= num_spans n L.
Proof. intros Hn HL. unfold num_spans. now apply ceil_div_nonneg. Qed.

(** The overlap, times the number of internal boundaries, makes up for the
    whole excess [num_spans * L - n]; rounded up, it may do more. *)
Lemma overlap_spec (n L : Z) :
  let d := Z.max (num_spans n L - 1) 1 in
  (overlap n L - 1) * d < num_spans n L * L - n <= overlap n L * d.
Proof.
  intros d. unfold overlap. apply ceil_div_bounds. subst d. lia.
Qed.

Lemma overlap_bounds (n L : Z) :
  0 <= n -> 0 < L -> 0 <= overlap n L <= L.
Proof.
  intros Hn HL.
  pose proof (num_spans_bounds n L HL) as Hk.
  pose proof (overlap_spec n L) as Ho. cbv zeta in Ho.
  set (d := Z.max (num_spans n L - 1) 1) in *.
  assert (Hd : 1 <= d) by (subst d; lia).
  assert (HX : 0 <= num_spans n L * L - n < L) by lia.
  split.
  - destruct (Z_lt_le_dec (overlap n L) 0) as [Hneg|]; [|assumption].
    assert (overlap n L * d <= -1 * d) by (apply Z.mul_le_mono_nonneg_r; lia).
    lia.
  - destruct (Z_le_gt_dec (overlap n L) L) as [|Hbig]; [assumption|].
    assert (L * d <= (overlap n L - 1) * d)
      by (apply Z.mul_le_mono_nonneg_r; lia).
    assert (L * 1 <= L * d) by (apply Z.mul_le_mono_nonneg_l; lia).
    lia.
Qed.

Lemma boundary_start_nonneg (n L : Z) :
  0 <= n -> 0 < L ->
  Forall (fun b => 0 <= fst b) (spans_boundaries n L).
Proof.
  intros Hn HL. rewrite spans_boundaries_closed. apply Forall_forall.
  intros b Hb. apply in_map_iff in Hb as (i & <- & Hi).
  apply in_range in Hi. pose proof (overlap_bounds n L Hn HL).
  unfold boundary_at. simpl. apply Z.mul_nonneg_nonneg; lia.
Qed.

Lemma boundary_within (n L : Z) :
  0 < L -> 2 <= num_spans n L ->
  Forall (fun b => 0 <= fst b /\ fst b < snd b /\ snd b <= n)
    (spans_boundaries n L).
Proof.
  intros HL Hk.
  pose proof (num_spans_bounds n L HL) as Hkb.
  assert (Hn : 0 <= n) by nia.
  pose proof (overlap_bounds n L Hn HL) as Hov.
  pose proof (overlap_spec n L) as Ho. cbv zeta in Ho.
  rewrite Z.max_l in Ho by lia.
  rewrite spans_boundaries_closed. apply Forall_forall.
  intros b Hb. apply in_map_iff in Hb as (i & <- & Hi).
  apply in_range in Hi. unfold boundary_at. simpl.
  assert (H0 : 0 <= (L - overlap n L) * i)
    by (apply Z.mul_nonneg_nonneg; lia).
  assert (H1 : (L - overlap n L) * i <= (L - overlap n L) * (num_spans n L - 1))
    by (apply Z.mul_le_mono_nonneg_l; lia).
  repeat split; try lia.
Qed.

(** ** Slices that stay within the sequence *)

Lemma slice_length {A : Type} (l : list A) (a b : Z) :
  0 <= a -> a <= b -> b <= Z.of_nat (length l) ->
  length (Py.slice l a b) = Z.to_nat (b - a).
Proof.
  intros Ha Hab Hb. unfold Py.slice, Py.slice_index.
  destruct (a <? 0) eqn:Ea; [apply Z.ltb_lt in Ea; lia|].
  destruct (b <? 0) eqn:Eb; [apply Z.ltb_lt in Eb; lia|].
  rewrite !Z.min_l by lia.
  rewrite length_firstn, length_skipn. lia.
Qed.

Lemma slice_whole_prefix {A : Type} (l : list A) (b : Z) :
  Z.of_nat (length l) <= b -> Py.slice l 0 b = l.
Proof.
  intros Hb. unfold Py.slice, Py.slice_index.
  destruct (b <? 0) eqn:Eb; [apply Z.ltb_lt in Eb; lia|].
  change (0 <? 0) with false. cbv iota.
  replace (Z.min 0 (Z.of_nat (length l))) with 0 by lia.
  replace (Z.min b (Z.of_nat (length l))) with (Z.of_nat (length l)) by lia.
  rewrite Z.sub_0_r, Nat2Z.id. simpl. apply firstn_all.
Qed.

Lemma spans_boundaries_single (n L : Z) :
  0 < n <= L -> spans_boundaries n L = [(0, L)].
Proof.
  intros H. rewrite spans_boundaries_closed.
  unfold num_spans. rewrite (ceil_div_one n L H). simpl.
  unfold boundary_at. f_equal. f_equal; lia.
Qed.

(** ** What the plan does cover *)

Lemma overlap_below_span (n L : Z) :
  0 < L -> 2 <= num_spans n L -> overlap n L < L.
Proof.
  intros HL Hk.
  pose proof (num_spans_bounds n L HL) as Hkb.
  pose proof (overlap_spec n L) as Ho. cbv zeta in Ho.
  rewrite Z.max_l in Ho by lia.
  destruct (Z_lt_le_dec (overlap n L) L) as [|Hbig]; [assumption|].
  assert ((L - 1) * 1 <= (L - 1) * (num_spans n L - 1))
    by (apply Z.mul_le_mono_nonneg_l; lia).
  assert ((L - 1) * (num_spans n L - 1)
          <= (overlap n L - 1) * (num_spans n L - 1))
    by (apply Z.mul_le_mono_nonneg_r; lia).
  lia.
Qed.

(** Every token index below the end of the last boundary lies in some
    boundary: consecutive windows overlap or touch. *)
Lemma covered_below_last_end (n L t : Z) :
  0 < n -> 0 < L -> 0 <= t < last_end n L ->
  covered (spans_boundaries n L) t = true.
Proof.
  intros Hn HL Ht. unfold covered. apply existsb_exists.
  rewrite spans_boundaries_closed.
  pose proof (num_spans_bounds n L HL) as Hkb.
  assert (Hk1 : 1 <= num_spans n L) by nia.
  unfold last_end, boundary_at in Ht. simpl in Ht.
  set (k := num_spans n L) in *. set (s := L - overlap n L) in *.
  destruct (Z.eq_dec k 1) as [E1|Hne].
  - exists (boundary_at L (overlap n L) 0). split.
    + apply in_map. apply in_range. fold k. lia.
    + unfold covers, boundary_at. simpl. fold s.
      rewrite E1 in Ht. apply andb_true_intro. split.
      * apply Z.leb_le. lia.
      * apply Z.ltb_lt. lia.
  - assert (Hk2 : 2 <= num_spans n L) by (fold k; lia).
    pose proof (overlap_below_span n L HL Hk2) as Hov.
    pose proof (overlap_bounds n L ltac:(lia) HL) as Hov0.
    assert (Hs : 1 <= s <= L) by (subst s; lia).
    pose proof (Z.div_mod t s ltac:(lia)) as Hdm.
    pose proof (Z.mod_pos_bound t s ltac:(lia)) as Hmod.
    assert (Hq : 0 <= t / s) by (apply Z.div_pos; lia).
    exists (boundary_at L (overlap n L) (Z.min (t / s) (k - 1))). split.
    + apply in_map. apply in_range. fold k. lia.
    + unfold covers, boundary_at. simpl. fold s.
      apply andb_true_intro. split.
      * apply Z.leb_le.
        assert (s * Z.min (t / s) (k - 1) <= s * (t / s))
          by (apply Z.mul_le_mono_nonneg_l; lia).
        lia.
      * apply Z.ltb_lt.
        destruct (Z_le_gt_dec (t / s) (k - 1)) as [Hle|Hgt].
        -- rewrite Z.min_l by lia. lia.
        -- rewrite Z.min_r by lia. lia.
Qed.

(** The last boundary ends at most [num_spans - 2] tokens short of the
    document's end, and never beyond it. *)
Lemma last_end_shortfall (n L : Z) :
  0 < L -> 2 <= num_spans n L ->
  n - (num_spans n L - 2) <= last_end n L <= n.
Proof.
  intros HL Hk.
  pose proof (overlap_spec n L) as Ho. cbv zeta in Ho.
  rewrite Z.max_l in Ho by lia.
  unfold last_end, boundary_at. simpl. lia.
Qed.

(** ** The span planner: claims *)

(** C1.  At 601 tokens and span length 256 the planner produces
    ceil(601/256) = 3 boundaries of width 256 each, namely [0,256),
    [172,428) and [344,600); token index 600 of the document lies in none
    of them, so the boundaries do not cover [0, 601). *)
Theorem C1_last_token_not_covered :
  Z.of_nat (length (spans_boundaries 601 256)) = Py.ceil_div 601 256
  /\ Forall (fun b => snd b - fst b = 256) (spans_boundaries 601 256)
  /\ spans_boundaries 601 256 = [(0, 256); (172, 428); (344, 600)]
  /\ 0 <= 600 < 601
  /\ covered (spans_boundaries 601 256) 600 = false.
Proof.
  split; [reflexivity|].
  split; [apply spans_boundaries_width|].
  split; [reflexivity|].
  split; [lia|reflexivity].
Qed.

(** C4 as stated fails: at 300 tokens and span length 256 the planner
    does not return the boundaries [0,256) and [-212,44). *)
Lemma C4_second_boundary_is_not_negative :
  ~ (num_spans 300 256 = 2 /\ overlap 300 256 = 212
     /\ spans_boundaries 300 256 = [(0, 256); (-212, 44)]).
Proof.
  intros (_ & _ & H). vm_compute in H. discriminate H.
Qed.

(** C4, amended.  For a document of 300 tokens with span length 256 the
    planner computes num_spans = 2 and overlap = 212, and returns exactly
    the two boundaries [0,256) and [44,300). *)
Theorem C4_scenario_300_tokens :
  num_spans 300 256 = 2 /\ overlap 300 256 = 212
  /\ spans_boundaries 300 256 = [(0, 256); (44, 300)].
Proof. repeat split. Qed.

(** C5 as stated fails: at 100 tokens and span length 256 the computed
    overlap is 156, not 0. *)
Lemma C5_overlap_is_not_zero :
  ~ (0 < 100 <= 256 ->
     spans_boundaries 100 256 = [(0, 256)] /\ overlap 100 256 = 0).
Proof.
  intros H. destruct (H ltac:(lia)) as [_ Hov].
  vm_compute in Hov. discriminate Hov.
Qed.

(** C5, amended.  For every num_tokens and span_length with
    0 < num_tokens <= span_length, the planner returns exactly one
    boundary, equal to [0, span_length), and the computed overlap equals
    span_length - num_tokens (it is 0 only when the two are equal). *)
Theorem C5_single_span (n L : Z) :
  0 < n <= L ->
  spans_boundaries n L = [(0, L)] /\ overlap n L = L - n.
Proof.
  intros H. split; [now apply spans_boundaries_single|].
  unfold overlap, num_spans. rewrite (ceil_div_one n L H).
  change (Z.max (1 - 1) 1) with 1. rewrite ceil_div_by_one. lia.
Qed.

Lemma C5_single_span_witness :
  0 < 100 <= 256
  /\ spans_boundaries 100 256 = [(0, 256)] /\ overlap 100 256 = 256 - 100.
Proof.
  split; [lia|]. apply (C5_single_span 100 256). lia.
Defined.

(** C8 as stated fails: there is no token count and positive span length
    for which the planner's list holds a boundary with a negative start. *)
Lemma C8_no_negative_start :
  ~ (exists n L : Z,
       0 <= n /\ 0 < L
       /\ Exists (fun b => fst b < 0) (spans_boundaries n L)).
Proof.
  intros (n & L & Hn & HL & Hex).
  apply Exists_exists in Hex as (b & Hb & Hneg).
  pose proof (boundary_start_nonneg n L Hn HL) as Hall.
  rewrite Forall_forall in Hall. specialize (Hall b Hb). lia.
Qed.

(** C8, amended.  For every input (num_tokens >= 0, span_length > 0) every
    boundary of the planner's list has a non-negative start offset; in
    particular when the document is shorter than one span the list is the
    single boundary [0, span_length). *)
Theorem C8_starts_are_nonnegative (n L : Z) :
  0 <= n -> 0 < L ->
  Forall (fun b => 0 <= fst b) (spans_boundaries n L)
  /\ (0 < n < L -> spans_boundaries n L = [(0, L)]).
Proof.
  intros Hn HL. split; [now apply boundary_start_nonneg|].
  intros H. apply spans_boundaries_single. lia.
Qed.

Lemma C8_starts_are_nonnegative_witness :
  (0 <= 100 /\ 0 < 256)
  /\ Forall (fun b => 0 <= fst b) (spans_boundaries 100 256)
  /\ spans_boundaries 100 256 = [(0, 256)].
Proof.
  split; [lia|].
  destruct (C8_starts_are_nonnegative 100 256 ltac:(lia) ltac:(lia))
    as [Hall Hone].
  split; [exact Hall|]. apply Hone. lia.
Defined.

(** C10.  For every num_tokens >= 1 and span_length >= 1 with
    num_spans >= 2, every planned boundary satisfies
    0 <= start < end <= num_tokens; slicing a sequence of num_tokens ids at
    such a boundary leaves both offsets unadjusted and yields exactly
    span_length ids. *)
Theorem C10_boundaries_within_document (n L : Z) (ids : list Z) :
  1 <= n -> 1 <= L -> 2 <= num_spans n L ->
  Z.of_nat (length ids) = n ->
  Forall (fun b => 0 <= fst b /\ fst b < snd b /\ snd b <= n)
    (spans_boundaries n L)
  /\ Forall (fun b => Py.slice_index n (fst b) = fst b
                      /\ Py.slice_index n (snd b) = snd b)
       (spans_boundaries n L)
  /\ Forall (fun w => Z.of_nat (length w) = L)
       (tensor_slices ids (spans_boundaries n L)).
Proof.
  intros Hn HL Hk Hlen.
  pose proof (boundary_within n L ltac:(lia) Hk) as Hin.
  pose proof (spans_boundaries_width n L) as Hw.
  rewrite Forall_forall in Hin, Hw.
  split; [now apply Forall_forall|]. split.
  - apply Forall_forall. intros b Hb. specialize (Hin b Hb).
    unfold Py.slice_index.
    destruct (fst b <? 0) eqn:E1; [apply Z.ltb_lt in E1; lia|].
    destruct (snd b <? 0) eqn:E2; [apply Z.ltb_lt in E2; lia|].
    lia.
  - apply Forall_forall. intros w Hwin.
    unfold tensor_slices in Hwin.
    apply in_map_iff in Hwin as (b & <- & Hb).
    specialize (Hin b Hb). specialize (Hw b Hb).
    rewrite slice_length by lia. lia.
Qed.

Lemma C10_boundaries_within_document_witness :
  let ids := [11; 12; 13; 14; 15] in
  (1 <= 5 /\ 1 <= 2 /\ 2 <= num_spans 5 2 /\ Z.of_nat (length ids) = 5)
  /\ Forall (fun b => 0 <= fst b /\ fst b < snd b /\ snd b <= 5)
       (spans_boundaries 5 2)
  /\ Forall (fun b => Py.slice_index 5 (fst b) = fst b
                      /\ Py.slice_index 5 (snd b) = snd b)
       (spans_boundaries 5 2)
  /\ Forall (fun w => Z.of_nat (length w) = 2)
       (tensor_slices ids (spans_boundaries 5 2)).
Proof.
  intros ids. split.
  - repeat split; vm_compute; congruence.
  - apply (C10_boundaries_within_document 5 2 ids).
    + lia.
    + lia.
    + vm_compute; congruence.
    + reflexivity.
Defined.

(** ** Stripping and splitting *)

Section Strings.

Lemma has_nonspace_lstrip (s : str) :
  has_nonspace (PyStr.lstrip s) = has_nonspace s.
Proof.
  induction s as [|c s IH]; simpl; [reflexivity|].
  destruct (PyStr.isspace c) eqn:E; simpl.
  - exact IH.
  - now rewrite E.
Qed.

Lemma has_nonspace_rev (s : str) : has_nonspace (rev s) = has_nonspace s.
Proof.
  unfold has_nonspace. induction s as [|c s IH]; simpl; [reflexivity|].
  rewrite existsb_app, IH. simpl. rewrite orb_false_r. apply orb_comm.
Qed.

Lemma has_nonspace_strip (s : str) :
  has_nonspace (PyStr.strip s) = has_nonspace s.
Proof.
  unfold PyStr.strip, PyStr.rstrip.
  now rewrite has_nonspace_rev, has_nonspace_lstrip, has_nonspace_rev,
    has_nonspace_lstrip.
Qed.

Lemma has_nonspace_app (a b : str) :
  has_nonspace (a ++ b) = has_nonspace a || has_nonspace b.
Proof. apply existsb_app. Qed.

Lemma strip_nonempty (s : str) :
  has_nonspace s = true -> is_empty (PyStr.strip s) = false.
Proof.
  intros H. rewrite <- has_nonspace_strip in H.
  destruct (PyStr.strip s); [discriminate H|reflexivity].
Qed.

(** A non-empty buffer that is [buffer_ok] survives [strip]. *)
Lemma strip_buffer (s : str) :
  buffer_ok s = true -> is_empty s = false ->
  is_empty (PyStr.strip s) = false.
Proof.
  unfold buffer_ok. intros H He. rewrite He in H. now apply strip_nonempty.
Qed.

Lemma split_from_tokens (s word : str) :
  is_empty word || has_nonspace word = true ->
  Forall (fun token => has_nonspace token = true) (PyStr.split_from word s).
Proof.
  revert word. induction s as [|c s IH]; intros word Hw; simpl.
  - destruct word; simpl in *; [constructor|].
    constructor; [exact Hw|constructor].
  - destruct (PyStr.isspace c) eqn:E.
    + destruct word as [|w word']; simpl in *.
      * now apply IH.
      * constructor; [exact Hw|]. now apply IH.
    + apply IH. rewrite has_nonspace_app. simpl. rewrite E. simpl.
      now rewrite orb_true_r, orb_true_r.
Qed.

Lemma split_tokens (s : str) :
  Forall (fun token => has_nonspace token = true) (PyStr.split s).
Proof. now apply split_from_tokens. Qed.

Lemma token_stream_tokens (text : str) :
  Forall (fun token => has_nonspace token = true) (token_stream text).
Proof. apply split_tokens. Qed.

End Strings.

(** ** The parser's loop invariant *)

Section ParserInvariant.

Lemma buffer_ok_push (buffer token : str) :
  has_nonspace token = true ->
  buffer_ok (buffer ++ lit " " ++ token) = true.
Proof.
  intros H. unfold buffer_ok. rewrite !has_nonspace_app, H.
  now rewrite !orb_true_r.
Qed.

Lemma triplet_type_nonempty (st : ParserState) :
  parser_inv st -> is_empty (relation st) = false ->
  is_empty (type (triplet_of st)) = false.
Proof.
  intros Hinv He. simpl. apply strip_buffer; [apply Hinv|exact He].
Qed.

Lemma parser_init_inv : parser_inv parser_init.
Proof. constructor; simpl; auto. Qed.

Lemma parser_step_inv (st : ParserState) (token : str) :
  parser_inv st -> has_nonspace token = true ->
  parser_inv (parser_step st token).
Proof.
  intros Hinv Htok. pose proof Hinv as [Ht Hs Hr Ho].
  unfold parser_step.
  destruct (str_eqb token (lit "<triplet>")).
  { destruct (is_empty (relation st)) eqn:He; simpl;
      constructor; simpl; auto.
    apply Forall_app. split; [exact Ht|].
    constructor; [|constructor]. now apply triplet_type_nonempty. }
  destruct (str_eqb token (lit "<subj>")).
  { constructor; simpl; auto.
    destruct (is_empty (relation st)) eqn:He; simpl; [exact Ht|].
    apply Forall_app. split; [exact Ht|].
    constructor; [|constructor]. now apply triplet_type_nonempty. }
  destruct (str_eqb token (lit "<obj>")).
  { constructor; simpl; auto. }
  destruct (current st); [exact Hinv| | |];
    constructor; cbn [relations subject relation object_ current]; auto;
    now apply buffer_ok_push.
Qed.

Lemma parser_loop_inv (tokens : list str) (st : ParserState) :
  Forall (fun token => has_nonspace token = true) tokens ->
  parser_inv st ->
  parser_inv (fold_left parser_step tokens st).
Proof.
  revert st. induction tokens as [|token tokens IH]; intros st Htok Hinv.
  - exact Hinv.
  - inversion Htok; subst. simpl. apply IH; [assumption|].
    now apply parser_step_inv.
Qed.

Lemma parser_finish_types (st : ParserState) :
  parser_inv st ->
  Forall (fun r => is_empty (type r) = false) (parser_finish st).
Proof.
  intros Hinv. unfold parser_finish.
  destruct (is_empty (subject st)); simpl; [apply Hinv|].
  destruct (is_empty (relation st)) eqn:He; simpl; [apply Hinv|].
  destruct (is_empty (object_ st)); simpl; [apply Hinv|].
  apply Forall_app. split; [apply Hinv|].
  constructor; [|constructor]. now apply triplet_type_nonempty.
Qed.

Lemma flushed_at_end_complete (st : ParserState) :
  parser_inv st ->
  Forall (fun r => complete r = true) (flushed_at_end st).
Proof.
  intros [Ht Hs Hr Ho]. unfold flushed_at_end, parser_finish.
  destruct (is_empty (subject st)) eqn:Es; simpl;
    [rewrite skipn_all; constructor|].
  destruct (is_empty (relation st)) eqn:Er; simpl;
    [rewrite skipn_all; constructor|].
  destruct (is_empty (object_ st)) eqn:Eo; simpl;
    [rewrite skipn_all; constructor|].
  rewrite skipn_app, skipn_all, Nat.sub_diag. simpl.
  constructor; [|constructor].
  unfold complete. simpl.
  now rewrite !strip_buffer.
Qed.

(** Outside any mode, a token that is no marker leaves the state as it
    is. *)
Lemma parser_step_idle (st : ParserState) (token : str) :
  current st = cur_x -> is_marker token = false ->
  parser_step st token = st.
Proof.
  intros Hc Hm. unfold is_marker in Hm.
  apply orb_false_elim in Hm as [Hm Ho].
  apply orb_false_elim in Hm as [Ht Hs].
  unfold parser_step. now rewrite Ht, Hs, Ho, Hc.
Qed.

Lemma parser_loop_idle (tokens : list str) (st : ParserState) :
  current st = cur_x -> marker_free tokens = true ->
  fold_left parser_step tokens st = st.
Proof.
  intros Hc. induction tokens as [|token tokens IH]; intros Hm.
  - reflexivity.
  - simpl in Hm. apply andb_prop in Hm as [Hm Hrest].
    apply negb_true_iff in Hm. simpl.
    rewrite (parser_step_idle st token Hc Hm). now apply IH.
Qed.

(** Each triplet is paid for by a control marker of its own. *)
Lemma parser_step_count (st : ParserState) (token : str) (k : nat) :
  (length (relations st) + pending st <= k)%nat ->
  (length (relations (parser_step st token)) + pending (parser_step st token)
   <= k + (if is_marker token then 1 else 0))%nat.
Proof.
  intros H. unfold parser_step, is_marker, pending in *.
  destruct (str_eqb token (lit "<triplet>")).
  { destruct (current st), (is_empty (relation st)) eqn:Er; simpl in *;
      rewrite ?Er, ?length_app; simpl; lia. }
  destruct (str_eqb token (lit "<subj>")).
  { destruct (current st), (is_empty (relation st)) eqn:Er; simpl in *;
      rewrite ?Er, ?length_app; simpl; lia. }
  destruct (str_eqb token (lit "<obj>")).
  { destruct (current st), (is_empty (relation st)) eqn:Er; simpl in *;
      lia. }
  cbn [orb].
  destruct (current st) eqn:Ec;
    cbn [relations relation current]; rewrite ?Ec; lia.
Qed.

Lemma parser_loop_count (tokens : list str) (st : ParserState) (k : nat) :
  (length (relations st) + pending st <= k)%nat ->
  let st' := fold_left parser_step tokens st in
  (length (relations st') + pending st' <= k + count_markers tokens)%nat.
Proof.
  revert st k. induction tokens as [|token tokens IH]; intros st k H.
  - simpl. unfold count_markers. simpl. lia.
  - cbn [fold_left]. cbv zeta.
    pose proof (IH _ _ (parser_step_count st token k H)) as IH'.
    cbv zeta in IH'. unfold count_markers in *. cbn [filter].
    destruct (is_marker token); simpl in *; lia.
Qed.

Lemma parser_finish_count (st : ParserState) (k : nat) :
  (length (relations st) + pending st <= k)%nat ->
  (length (parser_finish st) <= k)%nat.
Proof.
  unfold parser_finish, pending. intros H.
  destruct (is_empty (subject st)); simpl; [lia|].
  destruct (is_empty (relation st)) eqn:Er; simpl; [lia|].
  destruct (is_empty (object_ st)); simpl; [lia|].
  rewrite length_app. simpl. destruct (current st); lia.
Qed.

End ParserInvariant.

(** ** The triplet parser: claims *)

(** C3 as stated fails: on the stream "<obj> R <triplet>" the parser emits
    a triplet whose head and tail are empty. *)
Lemma C3_partial_triplet_emitted :
  extract_relations_from_model_output (lit "<obj> R <triplet>")
  = [{| head := []; type := lit "R"; tail := []; meta := None |}]
  /\ ~ Forall (fun r => complete r = true)
         (extract_relations_from_model_output (lit "<obj> R <triplet>")).
Proof.
  split; [reflexivity|].
  intros H. inversion H as [|r rs Hr _]; subst. discriminate Hr.
Qed.

(** C3, amended.  Every Relation emitted by the Triplet Parser, for every
    input, has a non-empty type; and the Relation added by the
    end-of-stream flush, when there is one, has non-empty head, non-empty
    type and non-empty tail. *)
Theorem C3_type_never_empty (text : str) :
  Forall (fun r => is_empty (type r) = false)
    (extract_relations_from_model_output text)
  /\ Forall (fun r => complete r = true)
       (flushed_at_end (fold_left parser_step (token_stream text) parser_init)).
Proof.
  assert (Hinv : parser_inv
                   (fold_left parser_step (token_stream text) parser_init))
    by (apply parser_loop_inv;
        [apply token_stream_tokens|apply parser_init_inv]).
  split.
  - now apply parser_finish_types.
  - now apply flushed_at_end_complete.
Qed.

(** C6.  The Triplet Parser applied to "<triplet> A B <subj> C <obj> D"
    returns exactly the one-element list
    [{head: "A B", type: "D", tail: "C"}]. *)
Theorem C6_round_trip :
  extract_relations_from_model_output (lit "<triplet> A B <subj> C <obj> D")
  = [{| head := lit "A B"; type := lit "D"; tail := lit "C";
        meta := None |}].
Proof. reflexivity. Qed.

(** C9.  The Triplet Parser is a total function from strings to lists of
    triplets (no operation of it can raise): on every input it returns a
    list with at most one triplet per control marker of the token stream,
    however the markers are arranged; on the empty input it returns the
    empty list, and so it does on every input whose token stream holds no
    control marker. *)
Theorem C9_parser_total_and_lenient :
  extract_relations_from_model_output [] = []
  /\ (forall text : str,
        exists rs : list Relation,
          extract_relations_from_model_output text = rs
          /\ (length rs <= count_markers (token_stream text))%nat)
  /\ forall text : str,
       marker_free (token_stream text) = true ->
       extract_relations_from_model_output text = [].
Proof.
  split; [reflexivity|]. split.
  - intros text. eexists. split; [reflexivity|].
    unfold extract_relations_from_model_output.
    apply parser_finish_count.
    apply (parser_loop_count (token_stream text) parser_init 0).
    unfold pending. simpl. lia.
  - intros text Hfree. unfold extract_relations_from_model_output.
    now rewrite (parser_loop_idle _ parser_init eq_refl Hfree).
Qed.

Lemma C9_parser_total_and_lenient_witness :
  marker_free (token_stream (lit "  the <s> cat sat </s><pad>")) = true
  /\ extract_relations_from_model_output (lit "  the <s> cat sat </s><pad>")
     = [].
Proof.
  split; [reflexivity|].
  apply (proj2 (proj2 C9_parser_total_and_lenient)). reflexivity.
Defined.

(** ** Stacking and slicing windows *)

Section Windows.

Lemma in_slice {A : Type} (l : list A) (a b : Z) (x : A) :
  In x (Py.slice l a b) -> In x l.
Proof.
  unfold Py.slice. intros H.
  apply (In_nth _ _ x) in H as (i & Hi & <-).
  rewrite length_firstn in Hi. rewrite nth_firstn.
  destruct (Nat.ltb_spec i (Z.to_nat
            (Py.slice_index (Z.of_nat (length l)) b
             - Py.slice_index (Z.of_nat (length l)) a))) as [_|]; [|lia].
  rewrite nth_skipn. apply nth_In. rewrite length_skipn in Hi. lia.
Qed.

Lemma forall_slice {A : Type} (P : A -> Prop) (l : list A) (a b : Z) :
  Forall P l -> Forall P (Py.slice l a b).
Proof.
  rewrite !Forall_forall. intros H x Hx. apply H. now apply (in_slice l a b).
Qed.

Lemma slice_clamped_end {A : Type} (l : list A) (a b len : Z) :
  len = Z.of_nat (length l) -> 0 <= b ->
  Py.slice l a (Z.min b len) = Py.slice l a b.
Proof.
  intros -> Hb. unfold Py.slice. f_equal. f_equal. f_equal.
  unfold Py.slice_index.
  destruct (Z.min b (Z.of_nat (length l)) <? 0) eqn:E1;
    [apply Z.ltb_lt in E1; lia|].
  destruct (b <? 0) eqn:E2; [apply Z.ltb_lt in E2; lia|].
  lia.
Qed.

Lemma same_size_uniform (m : nat) (ts : list Tensor) :
  Forall (fun t => length t = m) ts -> Torch.same_size ts = true.
Proof.
  intros H. destruct ts as [|t ts]; [reflexivity|].
  inversion H as [|? ? Ht Hts]; subst. simpl.
  apply forallb_forall. intros t' Hin.
  rewrite Forall_forall in Hts. rewrite (Hts t' Hin). apply Nat.eqb_refl.
Qed.

Lemma stack_uniform (m : nat) (ts : list Tensor) :
  ts <> [] -> Forall (fun t => length t = m) ts -> Torch.stack ts = Ok ts.
Proof.
  intros Hne H. unfold Torch.stack.
  destruct ts as [|t ts]; [contradiction|].
  now rewrite (same_size_uniform m).
Qed.

Lemma slice_nonempty {A : Type} (l : list A) (a b : Z) :
  0 <= a -> a < b -> a < Z.of_nat (length l) -> Py.slice l a b <> [].
Proof.
  intros Ha Hab Hl Hnil. apply (f_equal (@length A)) in Hnil.
  unfold Py.slice, Py.slice_index in Hnil.
  destruct (a <? 0) eqn:Ea; [apply Z.ltb_lt in Ea; lia|].
  destruct (b <? 0) eqn:Eb; [apply Z.ltb_lt in Eb; lia|].
  rewrite length_firstn, length_skipn in Hnil. simpl in Hnil. lia.
Qed.

Lemma tensor_slices_length {A : Type} (ids : list A)
    (bs : list SpanBoundary) :
  length (tensor_slices ids bs) = length bs.
Proof. apply length_map. Qed.

(** The windows of a non-empty document: there is at least one, and they
    all have the same size. *)
Lemma windows_uniform (ids : Tensor) :
  (0 < length ids)%nat ->
  windows_of ids <> []
  /\ exists m, Forall (fun t => length t = m) (windows_of ids).
Proof.
  intros Hpos. unfold windows_of, span_length.
  set (n := Z.of_nat (length ids)).
  destruct (Z_le_gt_dec n 256) as [Hle|Hgt].
  - rewrite spans_boundaries_single by lia. simpl. split; [discriminate|].
    eexists. constructor; [reflexivity|constructor].
  - pose proof (num_spans_bounds n 256 ltac:(lia)) as Hk.
    assert (Hk2 : 2 <= num_spans n 256) by lia.
    split.
    + intros Hnil. apply (f_equal (@length (list Z))) in Hnil.
      rewrite tensor_slices_length, spans_boundaries_length in Hnil.
      simpl in Hnil. lia.
    + exists 256%nat. apply Forall_forall. intros w Hw.
      unfold tensor_slices in Hw. apply in_map_iff in Hw as (b & <- & Hb).
      pose proof (boundary_within n 256 ltac:(lia) Hk2) as Hin.
      pose proof (spans_boundaries_width n 256) as Hwd.
      rewrite Forall_forall in Hin, Hwd.
      specialize (Hin b Hb). specialize (Hwd b Hb).
      rewrite slice_length by (fold n; lia). lia.
Qed.

Lemma windows_of_length (ids : Tensor) :
  length (windows_of ids)
  = Z.to_nat (num_spans (Z.of_nat (length ids)) span_length).
Proof.
  unfold windows_of, tensor_slices.
  now rewrite length_map, spans_boundaries_length.
Qed.

End Windows.

(** ** The batch loop *)

Section BatchLoop.

Variable decode : bool -> Tensor -> str.
Variable generate : BatchInputs -> result Tensor2.
Variable batch_size : Z.
Variable cancelled : nat -> bool.

(** The inner loop adds, candidate by candidate, the triplets tagged with
    the text of the window at the candidate's position divided by
    [num_return_sequences]. *)
Lemma process_preds_ok (b : BatchInputs) (cands : Tensor2) (p : nat)
    (acc : list Relation) :
  Z.of_nat (p + length cands)
  <= num_return_sequences * Z.of_nat (length (input_ids b)) ->
  process_preds decode (input_ids b) (Z.of_nat p)
    (batch_decode decode cands false) acc
  = Ok (acc ++ concat
                 (map (fun pc => candidate_relations decode b (fst pc) (snd pc))
                    (combine (seq p (length cands)) cands))).
Proof.
  revert p acc. induction cands as [|c cands IH]; intros p acc Hlen.
  - simpl. now rewrite app_nil_r.
  - cbn [length] in Hlen. cbn [batch_decode map process_preds].
    assert (Hidx : (Z.to_nat (Z.of_nat p / num_return_sequences)
                    < length (input_ids b))%nat).
    { assert (Z.of_nat p / num_return_sequences
              < Z.of_nat (length (input_ids b)))
        by (apply Z.div_lt_upper_bound; unfold num_return_sequences in *; lia).
      assert (0 <= Z.of_nat p / num_return_sequences)
        by (apply Z.div_pos; unfold num_return_sequences; lia).
      lia. }
    destruct (nth_error (input_ids b)
                (Z.to_nat (Z.of_nat p / num_return_sequences)))
      as [window|] eqn:E; [|apply nth_error_None in E; lia].
    apply (nth_error_nth _ _ []) in E.
    replace (Z.of_nat p + 1) with (Z.of_nat (S p)) by lia.
    fold (batch_decode decode cands false).
    rewrite IH by lia.
    cbn [length seq combine map concat fst snd].
    rewrite <- E, <- app_assoc. reflexivity.
Qed.

Section OneDocument.

Variables ws ms : list Tensor.
Variables m_ids m_masks : nat.
Hypothesis batch_size_pos : 0 < batch_size.
Hypothesis masks_length : length ms = length ws.
Hypothesis ws_uniform : Forall (fun t => length t = m_ids) ws.
Hypothesis ms_uniform : Forall (fun t => length t = m_masks) ms.

Lemma run_batch_ok (j : Z) (acc : list Relation) (w : World) :
  batch_fine generate batch_size ws ms j ->
  run_batch decode generate batch_size ws ms (batch_size * j) acc w
  = (Ok (acc ++ batch_relations decode generate
                  (batch_at batch_size ws ms j)),
     {| polls := polls w;
        generate_calls :=
          generate_calls w ++ [batch_at batch_size ws ms j] |}).
Proof.
  intros (Hj & Hlt & Hgen). unfold run_batch, bind, lift. cbv zeta.
  assert (Hend : 0 <= batch_size * j + batch_size) by nia.
  rewrite (slice_clamped_end ws _ _ _ eq_refl Hend).
  rewrite (slice_clamped_end ms _ _ (Z.of_nat (length ws))
             (f_equal Z.of_nat (eq_sym masks_length)) Hend).
  rewrite (stack_uniform m_ids)
    by (try apply forall_slice; try apply slice_nonempty; auto; nia).
  rewrite (stack_uniform m_masks)
    by (try apply forall_slice; try apply slice_nonempty; auto;
        rewrite ?masks_length; nia).
  fold (batch_at batch_size ws ms j).
  unfold model_generate, generate_ok in *.
  unfold batch_relations, candidates_of.
  destruct (generate (batch_at batch_size ws ms j)) as [cs|e];
    [|discriminate Hgen].
  apply Z.leb_le in Hgen.
  change 0 with (Z.of_nat 0).
  change (input_ids {| input_ids := Py.slice ws (batch_size * j)
                                      (batch_size * j + batch_size);
                       attention_mask := Py.slice ms (batch_size * j)
                                           (batch_size * j + batch_size) |})
    with (input_ids (batch_at batch_size ws ms j)).
  rewrite (process_preds_ok (batch_at batch_size ws ms j) cs 0 acc)
    by (simpl plus; exact Hgen).
  reflexivity.
Qed.

(** As long as the token does not report cancellation, the loop runs the
    batches in order and goes on with what is left. *)
Lemma batch_loop_prefix (js rest : list Z) (acc : list Relation)
    (w : World) :
  Forall (batch_fine generate batch_size ws ms) js ->
  (forall i, (i < length js)%nat -> cancelled (polls w + i) = false) ->
  batch_loop decode generate batch_size cancelled ws ms
    (map (Z.mul batch_size) (js ++ rest)) acc w
  = batch_loop decode generate batch_size cancelled ws ms
      (map (Z.mul batch_size) rest)
      (acc ++ flat_map (batch_relations decode generate)
                (map (batch_at batch_size ws ms) js))
      {| polls := polls w + length js;
         generate_calls :=
           generate_calls w ++ map (batch_at batch_size ws ms) js |}.
Proof.
  revert acc w. induction js as [|j js IH]; intros acc w Hfine Hpoll.
  - destruct w as [p calls]. simpl. now rewrite !app_nil_r, Nat.add_0_r.
  - inversion Hfine as [|? ? Hj Hjs]; subst.
    cbn [app map batch_loop]. unfold bind at 1. unfold is_cancelled at 1.
    pose proof (Hpoll 0%nat ltac:(simpl; lia)) as H0.
    rewrite Nat.add_0_r in H0. rewrite H0. cbn [negb].
    unfold bind at 1. rewrite (run_batch_ok j acc _ Hj).
    cbn [polls generate_calls].
    rewrite IH; [|assumption|].
    + cbn [polls generate_calls length flat_map map].
      rewrite <- !app_assoc. cbn [app].
      now replace (S (polls w) + length js)%nat
        with (polls w + S (length js))%nat by lia.
    + intros i Hi. cbn [polls].
      replace (S (polls w) + i)%nat with (polls w + S i)%nat by lia.
      apply Hpoll. simpl. lia.
Qed.

End OneDocument.

End BatchLoop.

(** ** The whole run *)

Section Run.

Variable tokenizer : str -> Tensor * Tensor.
Variable decode : bool -> Tensor -> str.
Variable generate : BatchInputs -> result Tensor2.
Variable batch_size : Z.
Variable cancelled : nat -> bool.

Lemma range_split (n : Z) (j : nat) :
  (j < Z.to_nat n)%nat ->
  Py.range n
  = Py.range (Z.of_nat j)
      ++ Z.of_nat j :: map Z.of_nat (seq (S j) (Z.to_nat n - S j)).
Proof.
  intros Hj. unfold Py.range. rewrite Nat2Z.id.
  replace (Z.to_nat n) with (j + S (Z.to_nat n - S j))%nat at 1 by lia.
  rewrite seq_app, map_app. reflexivity.
Qed.

Lemma batch_index_fine (len j : Z) :
  0 < batch_size -> In j (Py.range (Py.ceil_div len batch_size)) ->
  0 <= j /\ batch_size * j < len.
Proof.
  intros Hbs Hin. apply in_range in Hin.
  pose proof (ceil_div_bounds len batch_size Hbs).
  split; [lia|]. nia.
Qed.

Section OneText.

Variable text : str.
Hypothesis batch_size_pos : 0 < batch_size.
Hypothesis tokens_ok : tokenizer_ok tokenizer text = true.

#[local] Abbreviation ws := (text_windows tokenizer text).
#[local] Abbreviation ms := (text_masks tokenizer text).
#[local] Abbreviation nb := (num_batches tokenizer batch_size text).

Lemma tokens_ok_lengths :
  (0 < length (fst (tokenizer text)))%nat
  /\ length (snd (tokenizer text)) = length (fst (tokenizer text)).
Proof.
  unfold tokenizer_ok in tokens_ok.
  apply andb_prop in tokens_ok as [H1 H2].
  apply Nat.ltb_lt in H1. apply Nat.eqb_eq in H2. now split.
Qed.

Lemma masks_windows_length : length ms = length ws.
Proof.
  unfold text_masks, text_windows. rewrite !windows_of_length.
  now rewrite (proj2 tokens_ok_lengths).
Qed.

Lemma text_batches_eq :
  text_batches tokenizer batch_size text
  = map (batch_at batch_size ws ms) (Py.range nb).
Proof. reflexivity. Qed.

(** Up to the loop, the run does not touch the world and does not raise. *)
Lemma run_reaches_loop (w : World) :
  run_relation_extraction tokenizer decode generate batch_size cancelled
    text w
  = batch_loop decode generate batch_size cancelled ws ms
      (map (Z.mul batch_size) (Py.range nb)) [] w.
Proof.
  destruct tokens_ok_lengths as [Hpos Hlen].
  unfold run_relation_extraction. cbv zeta.
  fold (windows_of (fst (tokenizer text))).
  rewrite <- Hlen. fold (windows_of (snd (tokenizer text))).
  fold ws. fold ms.
  destruct (windows_uniform (fst (tokenizer text)) Hpos) as (Hne & m1 & Hu1).
  destruct (windows_uniform (snd (tokenizer text)) ltac:(lia))
    as (Hne2 & m2 & Hu2).
  fold ws in Hne, Hu1. fold ms in Hne2, Hu2.
  unfold bind at 1. unfold lift at 1. rewrite (stack_uniform m1 ws Hne Hu1).
  unfold bind at 1. unfold lift at 1. rewrite (stack_uniform m2 ms Hne2 Hu2).
  unfold bind at 1. unfold lift at 1. unfold range3.
  destruct (batch_size =? 0) eqn:E0; [apply Z.eqb_eq in E0; lia|].
  destruct (0 <? batch_size) eqn:E1; [|apply Z.ltb_ge in E1; lia].
  rewrite Z.sub_0_r. fold nb.
  now rewrite (map_ext (fun i => 0 + batch_size * i) (Z.mul batch_size))
    by (intros; lia).
Qed.

Lemma windows_uniform_ws :
  exists m, Forall (fun t => length t = m) ws.
Proof.
  destruct tokens_ok_lengths as [Hpos _].
  now destruct (windows_uniform (fst (tokenizer text)) Hpos) as (_ & Hu).
Qed.

Lemma windows_uniform_ms :
  exists m, Forall (fun t => length t = m) ms.
Proof.
  destruct tokens_ok_lengths as [Hpos Hlen].
  now destruct (windows_uniform (snd (tokenizer text)) ltac:(lia))
    as (_ & Hu).
Qed.

(** The batches on which the model kept its contract are fine. *)
Lemma batches_fine (js : list Z) :
  (forall j, In j js -> In j (Py.range nb)) ->
  forallb (generate_ok generate) (map (batch_at batch_size ws ms) js) = true ->
  Forall (batch_fine generate batch_size ws ms) js.
Proof.
  intros Hsub Hgen. apply Forall_forall. intros j Hj.
  destruct (batch_index_fine _ j batch_size_pos (Hsub j Hj)) as [H0 Hlt].
  repeat split; try assumption.
  rewrite forallb_forall in Hgen. apply Hgen. now apply in_map.
Qed.

Lemma polls_not_cancelled (k : nat) :
  forallb (fun i => negb (cancelled i)) (seq 0 k) = true ->
  forall i, (i < k)%nat -> cancelled (0 + i) = false.
Proof.
  intros H i Hi. rewrite forallb_forall in H.
  apply negb_true_iff. apply H. apply in_seq. lia.
Qed.

(** A run that is never cancelled. *)
Lemma run_completes :
  forallb (generate_ok generate) (text_batches tokenizer batch_size text)
  = true ->
  forallb (fun i => negb (cancelled i))
    (seq 0 (length (text_batches tokenizer batch_size text))) = true ->
  run_relation_extraction tokenizer decode generate batch_size cancelled
    text world_init
  = (Ok (Relations
           (spec_relations tokenizer decode generate batch_size text)),
     {| polls := length (text_batches tokenizer batch_size text);
        generate_calls := text_batches tokenizer batch_size text |}).
Proof.
  rewrite text_batches_eq. intros Hgen Hpoll.
  destruct windows_uniform_ws as [m1 Hu1].
  destruct windows_uniform_ms as [m2 Hu2].
  rewrite run_reaches_loop.
  rewrite <- (app_nil_r (Py.range nb)) at 1.
  rewrite (batch_loop_prefix decode generate batch_size cancelled ws ms
             m1 m2 batch_size_pos masks_windows_length Hu1 Hu2).
  - unfold spec_relations. rewrite text_batches_eq.
    rewrite length_map. reflexivity.
  - apply batches_fine; auto.
  - apply polls_not_cancelled. now rewrite length_map in Hpoll.
Qed.

(** A run whose poll number [j] is the first to report cancellation. *)
Lemma run_cancelled (j : nat) :
  (j < length (text_batches tokenizer batch_size text))%nat ->
  forallb (generate_ok generate)
    (firstn j (text_batches tokenizer batch_size text)) = true ->
  forallb (fun i => negb (cancelled i)) (seq 0 j) = true ->
  cancelled j = true ->
  run_relation_extraction tokenizer decode generate batch_size cancelled
    text world_init
  = (Ok (TimeoutError timeout_message),
     {| polls := S j;
        generate_calls :=
          firstn j (text_batches tokenizer batch_size text) |}).
Proof.
  rewrite text_batches_eq, length_map, length_range.
  intros Hj Hgen Hpoll Hcancel.
  destruct windows_uniform_ws as [m1 Hu1].
  destruct windows_uniform_ms as [m2 Hu2].
  rewrite run_reaches_loop.
  pose proof (range_split nb j Hj) as Hsplit.
  assert (Hlen : length (Py.range (Z.of_nat j)) = j)
    by (rewrite length_range; lia).
  assert (Hfirst : firstn j (map (batch_at batch_size ws ms) (Py.range nb))
                   = map (batch_at batch_size ws ms) (Py.range (Z.of_nat j))).
  { rewrite Hsplit, map_app, firstn_app, length_map, Hlen, Nat.sub_diag.
    rewrite firstn_all2 by (rewrite length_map; lia).
    simpl. apply app_nil_r. }
  rewrite Hfirst in *. rewrite Hsplit.
  rewrite (batch_loop_prefix decode generate batch_size cancelled ws ms
             m1 m2 batch_size_pos masks_windows_length Hu1 Hu2).
  - cbn [map batch_loop]. unfold bind, is_cancelled. cbn [polls world_init].
    rewrite Hlen. cbn [Nat.add]. rewrite Hcancel. reflexivity.
  - apply batches_fine; [|exact Hgen].
    intros i Hi. rewrite Hsplit. apply in_or_app. now left.
  - rewrite Hlen. now apply polls_not_cancelled.
Qed.

End OneText.

End Run.

(** ** The batch orchestrator: claims *)

Lemma candidate_relations_meta (decode : bool -> Tensor -> str)
    (b : BatchInputs) (pos : nat) (candidate : Tensor) :
  Forall
    (fun r =>
       meta r = Some {| information := decode true (source_window b pos) |})
    (candidate_relations decode b pos candidate).
Proof.
  unfold candidate_relations. apply Forall_forall. intros r Hr.
  apply in_map_iff in Hr as (r0 & <- & _). reflexivity.
Qed.

(** C2.  When the cancellation token reports cancelled at the boundary of
    batch [j] (the first batch included, [j = 0]), and not before, the call
    ends there with the Cancelled outcome, which the source realises as the
    [TimeoutError] value of line 145, and not with a relation list: the
    relations parsed from the earlier batches are not part of it.  The
    calls of [generate] are those of the [j] earlier batches and no other. *)
Theorem C2_cancelled_at_batch_boundary
    (tokenizer : str -> Tensor * Tensor) (decode : bool -> Tensor -> str)
    (generate : BatchInputs -> result Tensor2) (batch_size : Z)
    (cancelled : nat -> bool) (text : str) (j : nat) :
  0 < batch_size ->
  tokenizer_ok tokenizer text = true ->
  (j < length (text_batches tokenizer batch_size text))%nat ->
  forallb (generate_ok generate)
    (firstn j (text_batches tokenizer batch_size text)) = true ->
  forallb (fun i => negb (cancelled i)) (seq 0 j) = true ->
  cancelled j = true ->
  run_relation_extraction tokenizer decode generate batch_size cancelled
    text world_init
  = (Ok (TimeoutError timeout_message),
     {| polls := S j;
        generate_calls :=
          firstn j (text_batches tokenizer batch_size text) |}).
Proof.
  intros Hbs Htok Hj Hgen Hpoll Hcancel.
  now apply run_cancelled.
Qed.

(** C7.  In a run that is not cancelled, the result is the list that takes,
    batch by batch and candidate by candidate, the triplets parsed from the
    candidate and tags them with the decoded text (special tokens
    stripped) of the window at index (position of the candidate in the
    batch) divided by num_return_sequences; every Relation parsed from a
    candidate carries that text as meta.information. *)
Theorem C7_relations_carry_source_window_text
    (tokenizer : str -> Tensor * Tensor) (decode : bool -> Tensor -> str)
    (generate : BatchInputs -> result Tensor2) (batch_size : Z)
    (cancelled : nat -> bool) (text : str) :
  0 < batch_size ->
  tokenizer_ok tokenizer text = true ->
  forallb (generate_ok generate) (text_batches tokenizer batch_size text)
  = true ->
  forallb (fun i => negb (cancelled i))
    (seq 0 (length (text_batches tokenizer batch_size text))) = true ->
  run_relation_extraction tokenizer decode generate batch_size cancelled
    text world_init
  = (Ok (Relations
           (spec_relations tokenizer decode generate batch_size text)),
     {| polls := length (text_batches tokenizer batch_size text);
        generate_calls := text_batches tokenizer batch_size text |})
  /\ (forall (b : BatchInputs) (pos : nat) (candidate : Tensor),
        source_window b pos
        = nth (Z.to_nat (Z.of_nat pos / num_return_sequences))
            (input_ids b) []
        /\ Forall
             (fun r =>
                meta r
                = Some {| information :=
                            decode true (source_window b pos) |})
             (candidate_relations decode b pos candidate)).
Proof.
  intros Hbs Htok Hgen Hpoll. split.
  - now apply run_completes.
  - intros b pos candidate. split; [reflexivity|].
    apply candidate_relations_meta.
Qed.

(** Three windows in two batches, cancelled after the first batch: one call
    of the model, two polls, and the [TimeoutError] value. *)
Lemma C2_cancelled_at_batch_boundary_witness :
  run_relation_extraction Toy.tokenizer Toy.decode Toy.generate 2
    Toy.cancelled_at_second_poll Toy.text world_init
  = (Ok (TimeoutError timeout_message),
     {| polls := 2;
        generate_calls :=
          firstn 1 (text_batches Toy.tokenizer 2 Toy.text) |}).
Proof.
  apply (C2_cancelled_at_batch_boundary Toy.tokenizer Toy.decode
           Toy.generate 2 Toy.cancelled_at_second_poll Toy.text 1).
  - lia.
  - vm_compute. reflexivity.
  - vm_compute. lia.
  - vm_compute. reflexivity.
  - vm_compute. reflexivity.
  - vm_compute. reflexivity.
Defined.

(** Three windows in two batches, never cancelled: thirty candidates, one
    triplet each. *)
Lemma C7_relations_carry_source_window_text_witness :
  run_relation_extraction Toy.tokenizer Toy.decode Toy.generate 2
    Toy.never_cancelled Toy.text world_init
  = (Ok (Relations
           (spec_relations Toy.tokenizer Toy.decode Toy.generate 2 Toy.text)),
     {| polls := length (text_batches Toy.tokenizer 2 Toy.text);
        generate_calls := text_batches Toy.tokenizer 2 Toy.text |})
  /\ length (spec_relations Toy.tokenizer Toy.decode Toy.generate 2 Toy.text)
     = 30%nat.
Proof.
  split.
  - apply (C7_relations_carry_source_window_text Toy.tokenizer Toy.decode
             Toy.generate 2 Toy.never_cancelled Toy.text).
    + lia.
    + vm_compute. reflexivity.
    + vm_compute. reflexivity.
    + vm_compute. reflexivity.
  - vm_compute. reflexivity.
Defined.

(** * Further properties *)

(** ** The span planner (lines 64-77) *)

Lemma nth_error_range (n : Z) (i : nat) :
  (i < Z.to_nat n)%nat -> nth_error (Py.range n) i = Some (Z.of_nat i).
Proof.
  intros Hi. unfold Py.range. rewrite nth_error_map, nth_error_seq.
  destruct (Nat.ltb_spec i (Z.to_nat n)); [reflexivity|lia].
Qed.

(** X1.  The plan has ceil(num_tokens / span_length) boundaries, and
    boundary [i] is the window of width span_length that starts at
    (span_length - overlap) * i: the loop's running [start] and the term
    span_length * i add up to equally spaced windows. *)
Theorem plan_shape (n L : Z) (i : nat) :
  0 <= n -> 0 < L ->
  Z.of_nat (length (spans_boundaries n L)) = Py.ceil_div n L
  /\ ((i < length (spans_boundaries n L))%nat ->
      nth_error (spans_boundaries n L) i
      = Some ((L - overlap n L) * Z.of_nat i,
              (L - overlap n L) * Z.of_nat i + L)).
Proof.
  intros Hn HL. pose proof (num_spans_nonneg n L Hn HL) as Hk.
  split.
  - rewrite spans_boundaries_length. unfold num_spans in *. lia.
  - rewrite spans_boundaries_length. intros Hi.
    rewrite spans_boundaries_closed, nth_error_map.
    now rewrite nth_error_range.
Qed.

Lemma plan_shape_witness :
  Z.of_nat (length (spans_boundaries 601 256)) = Py.ceil_div 601 256
  /\ nth_error (spans_boundaries 601 256) 2
     = Some ((256 - overlap 601 256) * 2, (256 - overlap 601 256) * 2 + 256).
Proof.
  destruct (plan_shape 601 256 2 ltac:(lia) ltac:(lia)) as [Hlen Hnth].
  split; [exact Hlen|]. apply Hnth. vm_compute. lia.
Defined.

(** X2.  The windows leave out at most the last num_spans - 2 tokens of
    the document: every token index below
    num_tokens - max(0, num_spans - 2) lies in some boundary.  In
    particular a document of at most two spans is covered whole. *)
Theorem plan_covers_all_but_tail (n L t : Z) :
  0 < n -> 0 < L ->
  0 <= t < n - Z.max 0 (num_spans n L - 2) ->
  covered (spans_boundaries n L) t = true.
Proof.
  intros Hn HL Ht. apply covered_below_last_end; try assumption.
  pose proof (num_spans_bounds n L HL) as Hkb.
  destruct (Z_le_gt_dec 2 (num_spans n L)) as [Hk2|Hk1].
  - pose proof (last_end_shortfall n L HL Hk2). lia.
  - assert (Hk : num_spans n L = 1) by nia.
    unfold last_end, boundary_at. rewrite Hk. simpl. nia.
Qed.

Lemma plan_covers_all_but_tail_witness :
  covered (spans_boundaries 601 256) 599 = true.
Proof.
  apply (plan_covers_all_but_tail 601 256 599); [lia|lia|].
  vm_compute. split; congruence.
Defined.

(** X3.  When span_length divides num_tokens the overlap is 0 and the
    windows tile the document: boundary [i] is
    [span_length * i, span_length * i + span_length). *)
Theorem plan_exact_multiple (m L : Z) :
  0 < m -> 0 < L ->
  overlap (m * L) L = 0
  /\ spans_boundaries (m * L) L
     = map (fun i => (L * i, L * i + L)) (Py.range m).
Proof.
  intros Hm HL.
  assert (Hk : num_spans (m * L) L = m).
  { unfold num_spans, Py.ceil_div.
    replace (- (m * L)) with ((- m) * L) by lia.
    rewrite Z.div_mul by lia. lia. }
  assert (Hov : overlap (m * L) L = 0).
  { unfold overlap. rewrite Hk, Z.sub_diag. unfold Py.ceil_div.
    change (- 0) with 0. rewrite Z.div_0_l by lia. reflexivity. }
  split; [exact Hov|].
  rewrite spans_boundaries_closed, Hk, Hov.
  apply map_ext. intros i. unfold boundary_at. f_equal; lia.
Qed.

Lemma plan_exact_multiple_witness :
  overlap (3 * 256) 256 = 0
  /\ spans_boundaries (3 * 256) 256
     = map (fun i => (256 * i, 256 * i + 256)) (Py.range 3).
Proof. apply (plan_exact_multiple 3 256); lia. Defined.

(** X4.  With two spans or more, each window starts
    span_length - overlap >= 1 tokens after the one before it, so it
    shares exactly [overlap] < span_length tokens with it and no two
    windows start at the same token. *)
Theorem plan_windows_advance (n L : Z) (i : nat) (b b' : SpanBoundary) :
  0 < L -> 2 <= num_spans n L ->
  nth_error (spans_boundaries n L) i = Some b ->
  nth_error (spans_boundaries n L) (S i) = Some b' ->
  fst b' = snd b - overlap n L /\ fst b < fst b'
  /\ 0 <= overlap n L < L.
Proof.
  intros HL Hk Hb Hb'.
  pose proof (num_spans_bounds n L HL) as Hkb.
  assert (Hn : 0 <= n) by nia.
  pose proof (overlap_below_span n L HL Hk) as Hov.
  pose proof (overlap_bounds n L Hn HL) as Hov0.
  assert (Hi' : (S i < length (spans_boundaries n L))%nat)
    by (apply nth_error_Some; congruence).
  destruct (plan_shape n L i Hn HL) as [_ Hnth].
  destruct (plan_shape n L (S i) Hn HL) as [_ Hnth'].
  rewrite Nat2Z.inj_succ in Hnth'.
  rewrite Hnth in Hb by lia. rewrite Hnth' in Hb' by lia.
  injection Hb as <-. injection Hb' as <-.
  cbn [fst snd]. nia.
Qed.

Lemma plan_windows_advance_witness :
  fst (172, 428) = snd (0, 256) - overlap 601 256
  /\ fst (0, 256) < fst (172, 428)
  /\ 0 <= overlap 601 256 < 256.
Proof.
  apply (plan_windows_advance 601 256 0 (0, 256) (172, 428)).
  - lia.
  - vm_compute. congruence.
  - reflexivity.
  - reflexivity.
Defined.

(** ** The run before its loop (lines 58-106) *)

Section RunEdges.

Variable tokenizer : str -> Tensor * Tensor.
Variable decode : bool -> Tensor -> str.
Variable generate : BatchInputs -> result Tensor2.
Variable batch_size : Z.
Variable cancelled : nat -> bool.

(** With a tokenizer that keeps its contract the two stacks of lines 89-92
    succeed, and the run goes on to the [range] of line 106. *)
Lemma run_reaches_range (text : str) (w : World) :
  tokenizer_ok tokenizer text = true ->
  run_relation_extraction tokenizer decode generate batch_size cancelled
    text w
  = (batch_starts <-
       lift (range3 0 (Z.of_nat (length (text_windows tokenizer text)))
               batch_size) ;;
     batch_loop decode generate batch_size cancelled
       (text_windows tokenizer text) (text_masks tokenizer text)
       batch_starts []) w.
Proof.
  intros Hok. destruct (tokens_ok_lengths tokenizer text Hok) as [Hpos Hlen].
  unfold run_relation_extraction. cbv zeta.
  fold (windows_of (fst (tokenizer text))).
  rewrite <- Hlen. fold (windows_of (snd (tokenizer text))).
  fold (text_windows tokenizer text). fold (text_masks tokenizer text).
  destruct (windows_uniform (fst (tokenizer text)) Hpos) as (Hne & m1 & Hu1).
  destruct (windows_uniform (snd (tokenizer text)) ltac:(lia))
    as (Hne2 & m2 & Hu2).
  fold (text_windows tokenizer text) in Hne, Hu1.
  fold (text_masks tokenizer text) in Hne2, Hu2.
  unfold bind at 1. unfold lift at 1. rewrite (stack_uniform m1 _ Hne Hu1).
  unfold bind at 1. unfold lift at 1. rewrite (stack_uniform m2 _ Hne2 Hu2).
  reflexivity.
Qed.

End RunEdges.

(** X5.  A text whose tokenization is empty has no window at all, and the
    run raises [RuntimeError] at the first [torch.stack] (line 90): the
    cancellation token is not polled and the model is not called. *)
Theorem run_on_empty_tokenization
    (tokenizer : str -> Tensor * Tensor) (decode : bool -> Tensor -> str)
    (generate : BatchInputs -> result Tensor2) (batch_size : Z)
    (cancelled : nat -> bool) (text : str) (w : World) :
  fst (tokenizer text) = [] ->
  windows_of (fst (tokenizer text)) = []
  /\ run_relation_extraction tokenizer decode generate batch_size cancelled
       text w
     = (Raise RuntimeError, w).
Proof.
  intros Hempty. split.
  - now rewrite Hempty.
  - unfold run_relation_extraction. now rewrite Hempty.
Qed.

Lemma run_on_empty_tokenization_witness :
  windows_of (fst (Toy.tokenizer [])) = []
  /\ run_relation_extraction Toy.tokenizer Toy.decode Toy.generate 2
       Toy.never_cancelled [] world_init
     = (Raise RuntimeError, world_init).
Proof.
  apply (run_on_empty_tokenization Toy.tokenizer Toy.decode Toy.generate 2
           Toy.never_cancelled [] world_init).
  reflexivity.
Defined.

(** X6.  A document of at most span_length = 256 tokens gives one window,
    and that window is the whole sequence of its token ids: nothing is cut
    and nothing is padded. *)
Theorem short_document_is_one_window (ids : Tensor) :
  (0 < length ids <= 256)%nat -> windows_of ids = [ids].
Proof.
  intros H. unfold windows_of, span_length.
  rewrite spans_boundaries_single by lia.
  cbn [tensor_slices map fst snd].
  now rewrite slice_whole_prefix by lia.
Qed.

Lemma short_document_is_one_window_witness :
  windows_of [5; 6; 7] = [[5; 6; 7]].
Proof. apply (short_document_is_one_window [5; 6; 7]). simpl. lia. Defined.

(** X7.  With batch size 0 the [range] of line 106 raises [ValueError]:
    the run fails before the cancellation token is polled or the model
    called. *)
Theorem run_with_zero_batch_size
    (tokenizer : str -> Tensor * Tensor) (decode : bool -> Tensor -> str)
    (generate : BatchInputs -> result Tensor2) (cancelled : nat -> bool)
    (text : str) (w : World) :
  tokenizer_ok tokenizer text = true ->
  run_relation_extraction tokenizer decode generate 0 cancelled text w
  = (Raise ValueError, w).
Proof.
  intros Hok. now rewrite run_reaches_range.
Qed.

Lemma run_with_zero_batch_size_witness :
  run_relation_extraction Toy.tokenizer Toy.decode Toy.generate 0
    Toy.never_cancelled Toy.text world_init
  = (Raise ValueError, world_init).
Proof.
  apply (run_with_zero_batch_size Toy.tokenizer Toy.decode Toy.generate
           Toy.never_cancelled Toy.text world_init).
  vm_compute. reflexivity.
Defined.

(** X8.  With a negative batch size the [range] of line 106 is empty: the
    run returns the empty relation list, and it neither polls the
    cancellation token nor calls the model, whatever the text. *)
Theorem run_with_negative_batch_size
    (tokenizer : str -> Tensor * Tensor) (decode : bool -> Tensor -> str)
    (generate : BatchInputs -> result Tensor2) (batch_size : Z)
    (cancelled : nat -> bool) (text : str) (w : World) :
  batch_size < 0 ->
  tokenizer_ok tokenizer text = true ->
  run_relation_extraction tokenizer decode generate batch_size cancelled
    text w
  = (Ok (Relations []), w).
Proof.
  intros Hneg Hok. rewrite run_reaches_range by assumption.
  unfold bind, lift, range3.
  destruct (batch_size =? 0) eqn:E0; [apply Z.eqb_eq in E0; lia|].
  destruct (0 <? batch_size) eqn:E1; [apply Z.ltb_lt in E1; lia|].
  set (len := Z.of_nat (length (text_windows tokenizer text))).
  pose proof (ceil_div_bounds (0 - len) (- batch_size) ltac:(lia)) as Hc.
  assert (Hle : Py.ceil_div (0 - len) (- batch_size) <= 0) by (subst len; nia).
  unfold Py.range. replace (Z.to_nat _) with 0%nat by lia.
  reflexivity.
Qed.

Lemma run_with_negative_batch_size_witness :
  run_relation_extraction Toy.tokenizer Toy.decode Toy.generate (-2)
    Toy.never_cancelled Toy.text world_init
  = (Ok (Relations []), world_init).
Proof.
  apply (run_with_negative_batch_size Toy.tokenizer Toy.decode Toy.generate
           (-2) Toy.never_cancelled Toy.text world_init).
  - lia.
  - vm_compute. reflexivity.
Defined.

(** ** The batch loop under any model and any cancellation (lines 106-145) *)

(** The first candidate without a window stops the loop over the
    candidates with [IndexError]. *)
Lemma process_preds_overflow (decode : bool -> Tensor -> str)
    (ids : Tensor2) (cands : Tensor2) (p : nat)
    (acc : list Relation) :
  Z.of_nat p <= num_return_sequences * Z.of_nat (length ids) ->
  num_return_sequences * Z.of_nat (length ids)
  < Z.of_nat (p + length cands) ->
  process_preds decode ids (Z.of_nat p) (batch_decode decode cands false) acc
  = Raise IndexError.
Proof.
  revert p acc. induction cands as [|c cands IH]; intros p acc Hle Hgt.
  - cbn [length] in Hgt. lia.
  - cbn [batch_decode map process_preds]. cbn [length] in Hgt.
    destruct (nth_error ids (Z.to_nat (Z.of_nat p / num_return_sequences)))
      as [window|] eqn:E; [|reflexivity].
    assert (Hlt : (Z.to_nat (Z.of_nat p / num_return_sequences)
                   < length ids)%nat)
      by (apply nth_error_Some; congruence).
    assert (Hp : Z.of_nat p < num_return_sequences * Z.of_nat (length ids)).
    { unfold num_return_sequences in *.
      pose proof (Z.div_mod (Z.of_nat p) 10 ltac:(lia)).
      pose proof (Z.mod_pos_bound (Z.of_nat p) 10 ltac:(lia)).
      assert (0 <= Z.of_nat p / 10) by (apply Z.div_pos; lia).
      lia. }
    replace (Z.of_nat p + 1) with (Z.of_nat (S p)) by lia.
    fold (batch_decode decode cands false).
    apply IH; lia.
Qed.

Section LoopTrace.

Variable decode : bool -> Tensor -> str.
Variable generate : BatchInputs -> result Tensor2.
Variable batch_size : Z.
Variable cancelled : nat -> bool.
Variables ws ms : list Tensor.
Variables m_ids m_masks : nat.
Hypothesis batch_size_pos : 0 < batch_size.
Hypothesis masks_length : length ms = length ws.
Hypothesis ws_uniform : Forall (fun t => length t = m_ids) ws.
Hypothesis ms_uniform : Forall (fun t => length t = m_masks) ms.

(** A batch that exists is stacked, handed to the model exactly once, and
    its candidates are processed; the token is not polled meanwhile. *)
Lemma run_batch_effect (j : Z) (acc : list Relation) (w : World) :
  batch_exists batch_size ws j ->
  run_batch decode generate batch_size ws ms (batch_size * j) acc w
  = (batch_outcome decode generate (batch_at batch_size ws ms j) acc,
     {| polls := polls w;
        generate_calls :=
          generate_calls w ++ [batch_at batch_size ws ms j] |}).
Proof.
  intros (Hj & Hlt). unfold run_batch, bind, lift. cbv zeta.
  assert (Hend : 0 <= batch_size * j + batch_size) by nia.
  rewrite (slice_clamped_end ws _ _ _ eq_refl Hend).
  rewrite (slice_clamped_end ms _ _ (Z.of_nat (length ws))
             (f_equal Z.of_nat (eq_sym masks_length)) Hend).
  rewrite (stack_uniform m_ids)
    by (try apply forall_slice; try apply slice_nonempty; auto; nia).
  rewrite (stack_uniform m_masks)
    by (try apply forall_slice; try apply slice_nonempty; auto;
        rewrite ?masks_length; nia).
  fold (batch_at batch_size ws ms j).
  unfold model_generate, batch_outcome.
  destruct (generate (batch_at batch_size ws ms j)) as [cs|e]; reflexivity.
Qed.

Lemma batch_loop_trace (js : list Z) (acc : list Relation) (w w' : World)
    (r : result value) :
  Forall (batch_exists batch_size ws) js ->
  batch_loop decode generate batch_size cancelled ws ms
    (map (Z.mul batch_size) js) acc w = (r, w') ->
  exists k : nat,
    (k <= length js)%nat
    /\ generate_calls w'
       = generate_calls w ++ map (batch_at batch_size ws ms) (firstn k js)
    /\ (forall i, (i < k)%nat -> cancelled (polls w + i) = false)
    /\ match r with
       | Ok (Relations _) => k = length js /\ polls w' = (polls w + k)%nat
       | Ok (TimeoutError _) =>
           (k < length js)%nat /\ cancelled (polls w + k) = true
           /\ polls w' = (polls w + S k)%nat
       | Raise _ => (0 < k)%nat /\ polls w' = (polls w + k)%nat
       end.
Proof.
  revert acc w. induction js as [|j js IH]; intros acc w Hex Hrun.
  - cbn in Hrun. injection Hrun as <- <-. exists 0%nat.
    cbn. rewrite app_nil_r, Nat.add_0_r. repeat split; try lia.
  - inversion Hex as [|? ? Hj Hjs]; subst.
    cbn [map batch_loop] in Hrun. unfold bind at 1 in Hrun.
    unfold is_cancelled at 1 in Hrun.
    destruct (cancelled (polls w)) eqn:Ec; cbn [negb] in Hrun.
    + cbn in Hrun. injection Hrun as <- <-. exists 0%nat.
      cbn. rewrite app_nil_r, Nat.add_0_r.
      repeat split; try lia. assumption.
    + unfold bind at 1 in Hrun. rewrite (run_batch_effect j acc _ Hj) in Hrun.
      cbn [polls generate_calls] in Hrun.
      destruct (batch_outcome decode generate
                  (batch_at batch_size ws ms j) acc) as [acc'|e].
      * destruct (IH _ _ Hjs Hrun) as (k & Hk & Hcalls & Hpolls & Hend).
        cbn [polls generate_calls] in Hcalls, Hpolls, Hend.
        exists (S k). split; [simpl; lia|]. split.
        { rewrite Hcalls, <- app_assoc. reflexivity. }
        split.
        { intros [|i] Hi; [now rewrite Nat.add_0_r|].
          replace (polls w + S i)%nat with (S (polls w) + i)%nat by lia.
          apply Hpolls. lia. }
        destruct r as [[rs|msg]|e];
          cbn [length];
          replace (polls w + S k)%nat with (S (polls w) + k)%nat by lia;
          replace (polls w + S (S k))%nat with (S (polls w) + S k)%nat by lia;
          intuition lia.
      * injection Hrun as <- <-. exists 1%nat. cbn.
        repeat split; try lia.
        intros i Hi. replace i with 0%nat by lia. now rewrite Nat.add_0_r.
Qed.

End LoopTrace.

(** ** Consecutive slices *)

Section Chunks.

Context {A : Type}.

Lemma slice_nonneg (l : list A) (a b : Z) :
  0 <= a <= b ->
  Py.slice l a b = skipn (Z.to_nat a) (firstn (Z.to_nat b) l).
Proof.
  intros H. unfold Py.slice, Py.slice_index.
  destruct (a <? 0) eqn:Ea; [apply Z.ltb_lt in Ea; lia|].
  destruct (b <? 0) eqn:Eb; [apply Z.ltb_lt in Eb; lia|].
  rewrite skipn_firstn_comm.
  destruct (Z_le_gt_dec a (Z.of_nat (length l))) as [Hle|Hgt].
  - rewrite (Z.min_l a) by lia.
    destruct (Z_le_gt_dec b (Z.of_nat (length l))) as [Hb|Hb].
    + rewrite Z.min_l by lia. f_equal. lia.
    + rewrite Z.min_r by lia.
      rewrite !firstn_all2 by (rewrite length_skipn; lia). reflexivity.
  - rewrite (Z.min_r a) by lia.
    rewrite (skipn_all2 (n := Z.to_nat (Z.of_nat (length l)))) by lia.
    rewrite (skipn_all2 (n := Z.to_nat a)) by lia.
    now rewrite !firstn_nil.
Qed.

Lemma range_succ (m : nat) :
  Py.range (Z.of_nat (S m)) = Py.range (Z.of_nat m) ++ [Z.of_nat m].
Proof.
  unfold Py.range. rewrite !Nat2Z.id, seq_S, map_app. reflexivity.
Qed.

Lemma chunks_prefix (l : list A) (size : Z) (m : nat) :
  0 < size ->
  concat (map (fun j => Py.slice l (size * j) (size * j + size))
            (Py.range (Z.of_nat m)))
  = firstn (Z.to_nat (size * Z.of_nat m)) l.
Proof.
  intros Hs. induction m as [|m IH].
  - rewrite Z.mul_0_r. reflexivity.
  - rewrite range_succ, map_app, concat_app, IH. cbn [map concat].
    rewrite app_nil_r, slice_nonneg by nia.
    replace (size * Z.of_nat m + size) with (size * Z.of_nat (S m)) by lia.
    set (a := Z.to_nat (size * Z.of_nat m)).
    set (b := Z.to_nat (size * Z.of_nat (S m))).
    assert (Hab : (a <= b)%nat) by (subst a b; nia).
    rewrite <- (firstn_skipn a (firstn b l)) at 2.
    f_equal. rewrite firstn_firstn. f_equal. lia.
Qed.

(** The slices of [size] elements each, taken one after the other, make up
    the list. *)
Lemma chunks_concat (l : list A) (size : Z) :
  0 < size ->
  concat (map (fun j => Py.slice l (size * j) (size * j + size))
            (Py.range (Py.ceil_div (Z.of_nat (length l)) size)))
  = l.
Proof.
  intros Hs.
  pose proof (ceil_div_bounds (Z.of_nat (length l)) size Hs) as Hb.
  pose proof (ceil_div_nonneg (Z.of_nat (length l)) size Hs ltac:(lia)) as H0.
  rewrite <- (Z2Nat.id (Py.ceil_div (Z.of_nat (length l)) size)) at 1 by lia.
  rewrite chunks_prefix by assumption.
  apply firstn_all2. nia.
Qed.

Lemma chunk_length (l : list A) (size j : Z) :
  0 < size -> 0 <= j -> size * j < Z.of_nat (length l) ->
  (0 < length (Py.slice l (size * j) (size * j + size)))%nat
  /\ Z.of_nat (length (Py.slice l (size * j) (size * j + size))) <= size.
Proof.
  intros Hs Hj Hlt. rewrite slice_nonneg by nia.
  rewrite length_skipn, length_firstn. split; nia.
Qed.

End Chunks.

(** ** Every run, whatever the model and the token do *)

Section RunTrace.

Variable tokenizer : str -> Tensor * Tensor.
Variable decode : bool -> Tensor -> str.
Variable generate : BatchInputs -> result Tensor2.
Variable batch_size : Z.
Variable cancelled : nat -> bool.
Variable text : str.
Hypothesis batch_size_pos : 0 < batch_size.
Hypothesis tokens_ok : tokenizer_ok tokenizer text = true.

#[local] Abbreviation ws := (text_windows tokenizer text).
#[local] Abbreviation ms := (text_masks tokenizer text).
#[local] Abbreviation nb := (num_batches tokenizer batch_size text).
#[local] Abbreviation batches := (text_batches tokenizer batch_size text).

Lemma planned_batches_exist :
  Forall (batch_exists batch_size ws) (Py.range nb).
Proof.
  apply Forall_forall. intros j Hj.
  now apply (batch_index_fine batch_size _ j batch_size_pos).
Qed.

Lemma nth_planned_batch (j : nat) (b : BatchInputs) :
  nth_error batches j = Some b ->
  (j < Z.to_nat nb)%nat /\ b = batch_at batch_size ws ms (Z.of_nat j).
Proof.
  intros Hnth.
  assert (Hj : (j < length batches)%nat)
    by (apply nth_error_Some; congruence).
  rewrite text_batches_eq, length_map, length_range in Hj.
  split; [exact Hj|].
  rewrite text_batches_eq, nth_error_map, nth_error_range in Hnth
    by exact Hj.
  now injection Hnth as <-.
Qed.

Lemma run_trace (r : result value) (w' : World) :
  run_relation_extraction tokenizer decode generate batch_size cancelled
    text world_init = (r, w') ->
  exists k : nat,
    (k <= length batches)%nat
    /\ generate_calls w' = firstn k batches
    /\ forallb (fun i => negb (cancelled i)) (seq 0 k) = true
    /\ run_ending cancelled r w' k (length batches).
Proof.
  intros Hrun. rewrite run_reaches_loop in Hrun by assumption.
  destruct (windows_uniform_ws tokenizer text tokens_ok) as [m1 Hu1].
  destruct (windows_uniform_ms tokenizer text tokens_ok) as [m2 Hu2].
  destruct (batch_loop_trace decode generate batch_size cancelled ws ms
              m1 m2 batch_size_pos
              (masks_windows_length tokenizer text tokens_ok) Hu1 Hu2
              _ _ _ _ _ planned_batches_exist Hrun)
    as (k & Hk & Hcalls & Hpolls & Hend).
  exists k. rewrite text_batches_eq, length_map.
  split; [exact Hk|]. split.
  { now rewrite Hcalls, firstn_map. }
  split.
  { apply forallb_forall. intros i Hi. apply in_seq in Hi.
    apply negb_true_iff. apply (Hpolls i). lia. }
  unfold run_ending. destruct r as [[rs|msg]|e]; exact Hend.
Qed.

Lemma run_fails_at_batch (j : nat) (b : BatchInputs) (e : exn) :
  nth_error batches j = Some b ->
  (forall acc, batch_outcome decode generate b acc = Raise e) ->
  forallb (generate_ok generate) (firstn j batches) = true ->
  forallb (fun i => negb (cancelled i)) (seq 0 (S j)) = true ->
  run_relation_extraction tokenizer decode generate batch_size cancelled
    text world_init
  = (Raise e,
     {| polls := S j; generate_calls := firstn (S j) batches |}).
Proof.
  intros Hnth Hfail Hgen Hpoll.
  destruct (nth_planned_batch j b Hnth) as [Hj ->].
  destruct (windows_uniform_ws tokenizer text tokens_ok) as [m1 Hu1].
  destruct (windows_uniform_ms tokenizer text tokens_ok) as [m2 Hu2].
  pose proof (masks_windows_length tokenizer text tokens_ok) as Hlenm.
  rewrite run_reaches_loop by assumption.
  pose proof (range_split nb j Hj) as Hsplit.
  assert (Hlen : length (Py.range (Z.of_nat j)) = j)
    by (rewrite length_range; lia).
  assert (Hfirst : forall c,
            (c <= 1)%nat ->
            firstn (j + c) (map (batch_at batch_size ws ms) (Py.range nb))
            = map (batch_at batch_size ws ms) (Py.range (Z.of_nat j))
                ++ firstn c [batch_at batch_size ws ms (Z.of_nat j)]).
  { intros c Hc. rewrite Hsplit, map_app, firstn_app, length_map, Hlen.
    rewrite firstn_all2 by (rewrite length_map; lia).
    replace (j + c - j)%nat with c by lia.
    destruct c as [|[|c]]; [reflexivity|reflexivity|lia]. }
  rewrite text_batches_eq in *.
  replace (S j) with (j + 1)%nat at 2 by lia.
  rewrite (Hfirst 1%nat) by lia.
  replace j with (j + 0)%nat in Hgen at 1 by lia.
  rewrite (Hfirst 0%nat), app_nil_r in Hgen by lia.
  pose proof (polls_not_cancelled cancelled (S j) Hpoll) as Hnc.
  assert (Hex : Forall (batch_exists batch_size ws) (Py.range nb))
    by exact planned_batches_exist.
  rewrite Hsplit in Hex |- *.
  apply Forall_app in Hex as [Hex1 Hex2].
  inversion Hex2 as [|? ? Hexj _]; subst.
  rewrite (batch_loop_prefix decode generate batch_size cancelled ws ms
             m1 m2 batch_size_pos Hlenm Hu1 Hu2).
  - cbn [map batch_loop]. unfold bind at 1. unfold is_cancelled at 1.
    cbn [polls world_init generate_calls]. rewrite Hlen. cbn [Nat.add].
    pose proof (Hnc j ltac:(lia)) as Hcj. cbn [Nat.add] in Hcj.
    rewrite Hcj. cbn [negb].
    unfold bind at 1.
    rewrite (run_batch_effect decode generate batch_size ws ms m1 m2
               batch_size_pos Hlenm Hu1 Hu2 _ _ _ Hexj).
    rewrite Hfail. reflexivity.
  - apply Forall_forall. intros i Hi.
    rewrite Forall_forall in Hex1. destruct (Hex1 i Hi) as [H0 Hlt].
    repeat split; try assumption.
    rewrite forallb_forall in Hgen. apply Hgen. now apply in_map.
  - rewrite Hlen. intros i Hi. apply Hnc. lia.
Qed.

End RunTrace.

(** X9.  Whatever the model returns or raises and whenever the token
    reports cancellation, the calls of the model are the first [k] planned
    batches, in order and once each, and none of the first [k] polls
    reported cancellation.  A returned relation list means all batches were
    run ([k] is their number); the [TimeoutError] value means poll [k]
    reported cancellation; an exception comes from the [k]-th call or the
    processing of its candidates. *)
Theorem run_calls_planned_batches_in_order
    (tokenizer : str -> Tensor * Tensor) (decode : bool -> Tensor -> str)
    (generate : BatchInputs -> result Tensor2) (batch_size : Z)
    (cancelled : nat -> bool) (text : str) (r : result value) (w' : World) :
  0 < batch_size ->
  tokenizer_ok tokenizer text = true ->
  run_relation_extraction tokenizer decode generate batch_size cancelled
    text world_init = (r, w') ->
  exists k : nat,
    (k <= length (text_batches tokenizer batch_size text))%nat
    /\ generate_calls w' = firstn k (text_batches tokenizer batch_size text)
    /\ forallb (fun i => negb (cancelled i)) (seq 0 k) = true
    /\ run_ending cancelled r w' k
         (length (text_batches tokenizer batch_size text)).
Proof.
  intros Hbs Hok Hrun. now apply (run_trace tokenizer decode generate).
Qed.

Lemma run_calls_planned_batches_in_order_witness :
  exists k : nat,
    (k <= length (text_batches Toy.tokenizer 2 Toy.text))%nat
    /\ generate_calls
         {| polls := 2;
            generate_calls := firstn 1 (text_batches Toy.tokenizer 2 Toy.text) |}
       = firstn k (text_batches Toy.tokenizer 2 Toy.text)
    /\ forallb (fun i => negb (Toy.cancelled_at_second_poll i)) (seq 0 k)
       = true
    /\ run_ending Toy.cancelled_at_second_poll
         (Ok (TimeoutError timeout_message))
         {| polls := 2;
            generate_calls := firstn 1 (text_batches Toy.tokenizer 2 Toy.text) |}
         k (length (text_batches Toy.tokenizer 2 Toy.text)).
Proof.
  apply (run_calls_planned_batches_in_order Toy.tokenizer Toy.decode
           Toy.generate 2 Toy.cancelled_at_second_poll Toy.text).
  - lia.
  - vm_compute. reflexivity.
  - vm_compute. reflexivity.
Defined.

(** X10.  A failure of the model is passed on as it is: when the call for
    batch [j] raises, the run raises the same exception right after that
    call; the relations of the earlier batches are lost and no later batch
    is polled for or run. *)
Theorem model_failure_is_passed_on
    (tokenizer : str -> Tensor * Tensor) (decode : bool -> Tensor -> str)
    (generate : BatchInputs -> result Tensor2) (batch_size : Z)
    (cancelled : nat -> bool) (text : str) (j : nat) (b : BatchInputs)
    (e : exn) :
  0 < batch_size ->
  tokenizer_ok tokenizer text = true ->
  nth_error (text_batches tokenizer batch_size text) j = Some b ->
  generate b = Raise e ->
  forallb (generate_ok generate)
    (firstn j (text_batches tokenizer batch_size text)) = true ->
  forallb (fun i => negb (cancelled i)) (seq 0 (S j)) = true ->
  run_relation_extraction tokenizer decode generate batch_size cancelled
    text world_init
  = (Raise e,
     {| polls := S j;
        generate_calls :=
          firstn (S j) (text_batches tokenizer batch_size text) |}).
Proof.
  intros Hbs Hok Hnth Hraise Hgen Hpoll.
  apply (run_fails_at_batch tokenizer decode generate batch_size cancelled
           text Hbs Hok j b e); try assumption.
  intros acc. unfold batch_outcome. now rewrite Hraise.
Qed.

Lemma model_failure_is_passed_on_witness :
  run_relation_extraction Toy.tokenizer Toy.decode Toy.generate_failing 2
    Toy.never_cancelled Toy.text world_init
  = (Raise (UpstreamFailure 7),
     {| polls := 2;
        generate_calls := firstn 2 (text_batches Toy.tokenizer 2 Toy.text) |}).
Proof.
  apply (model_failure_is_passed_on Toy.tokenizer Toy.decode
           Toy.generate_failing 2 Toy.never_cancelled Toy.text 1
           (batch_at 2 (text_windows Toy.tokenizer Toy.text)
              (text_masks Toy.tokenizer Toy.text) 1)).
  - lia.
  - vm_compute. reflexivity.
  - vm_compute. reflexivity.
  - vm_compute. reflexivity.
  - vm_compute. reflexivity.
  - vm_compute. reflexivity.
Defined.

(** X11.  When the model returns more than num_return_sequences = 10
    candidates per window of batch [j], the candidate at position
    10 * (number of windows) has no source window and the run raises
    [IndexError]; the relations parsed so far are lost. *)
Theorem surplus_candidates_raise_index_error
    (tokenizer : str -> Tensor * Tensor) (decode : bool -> Tensor -> str)
    (generate : BatchInputs -> result Tensor2) (batch_size : Z)
    (cancelled : nat -> bool) (text : str) (j : nat) (b : BatchInputs)
    (cs : Tensor2) :
  0 < batch_size ->
  tokenizer_ok tokenizer text = true ->
  nth_error (text_batches tokenizer batch_size text) j = Some b ->
  generate b = Ok cs ->
  num_return_sequences * Z.of_nat (length (input_ids b))
  < Z.of_nat (length cs) ->
  forallb (generate_ok generate)
    (firstn j (text_batches tokenizer batch_size text)) = true ->
  forallb (fun i => negb (cancelled i)) (seq 0 (S j)) = true ->
  run_relation_extraction tokenizer decode generate batch_size cancelled
    text world_init
  = (Raise IndexError,
     {| polls := S j;
        generate_calls :=
          firstn (S j) (text_batches tokenizer batch_size text) |}).
Proof.
  intros Hbs Hok Hnth Hgenb Hmany Hgen Hpoll.
  apply (run_fails_at_batch tokenizer decode generate batch_size cancelled
           text Hbs Hok j b IndexError); try assumption.
  intros acc. unfold batch_outcome. rewrite Hgenb.
  change 0 with (Z.of_nat 0).
  apply process_preds_overflow; [unfold num_return_sequences; lia|].
  exact Hmany.
Qed.

Lemma surplus_candidates_raise_index_error_witness :
  run_relation_extraction Toy.tokenizer Toy.decode Toy.generate_surplus 2
    Toy.never_cancelled Toy.text world_init
  = (Raise IndexError,
     {| polls := 2;
        generate_calls := firstn 2 (text_batches Toy.tokenizer 2 Toy.text) |}).
Proof.
  apply (surplus_candidates_raise_index_error Toy.tokenizer Toy.decode
           Toy.generate_surplus 2 Toy.never_cancelled Toy.text 1
           (batch_at 2 (text_windows Toy.tokenizer Toy.text)
              (text_masks Toy.tokenizer Toy.text) 1)
           (repeat Toy.candidate 11)).
  - lia.
  - vm_compute. reflexivity.
  - vm_compute. reflexivity.
  - vm_compute. reflexivity.
  - vm_compute. reflexivity.
  - vm_compute. reflexivity.
  - vm_compute. reflexivity.
Defined.

(** X12.  A run that returns a relation list has handed every window to
    the model exactly once and in order: the token ids of its calls, put
    end to end, are the windows of the text, and so are the masks; each
    call had at least one window and at most [batch_size]. *)
Theorem returned_list_means_every_window_was_run
    (tokenizer : str -> Tensor * Tensor) (decode : bool -> Tensor -> str)
    (generate : BatchInputs -> result Tensor2) (batch_size : Z)
    (cancelled : nat -> bool) (text : str) (rs : list Relation)
    (w' : World) :
  0 < batch_size ->
  tokenizer_ok tokenizer text = true ->
  run_relation_extraction tokenizer decode generate batch_size cancelled
    text world_init = (Ok (Relations rs), w') ->
  concat (map input_ids (generate_calls w')) = text_windows tokenizer text
  /\ concat (map attention_mask (generate_calls w'))
     = text_masks tokenizer text
  /\ Forall (fun b => (0 < length (input_ids b))%nat
                      /\ Z.of_nat (length (input_ids b)) <= batch_size)
       (generate_calls w').
Proof.
  intros Hbs Hok Hrun.
  destruct (run_trace tokenizer decode generate batch_size cancelled text
              Hbs Hok _ _ Hrun) as (k & _ & Hcalls & _ & Hend).
  destruct Hend as [-> _]. rewrite firstn_all in Hcalls. rewrite Hcalls.
  rewrite text_batches_eq. unfold num_batches.
  pose proof (masks_windows_length tokenizer text Hok) as Hlenm.
  split; [|split].
  - rewrite map_map. cbn [batch_at input_ids]. now apply chunks_concat.
  - rewrite map_map. cbn [batch_at attention_mask].
    rewrite <- Hlenm. now apply chunks_concat.
  - apply Forall_forall. intros b Hb.
    apply in_map_iff in Hb as (j & <- & Hj).
    destruct (batch_index_fine batch_size _ j Hbs Hj) as [H0 Hlt].
    cbn [batch_at input_ids]. now apply chunk_length.
Qed.

Lemma returned_list_means_every_window_was_run_witness :
  let w' := snd (run_relation_extraction Toy.tokenizer Toy.decode
                   Toy.generate 2 Toy.never_cancelled Toy.text world_init) in
  concat (map input_ids (generate_calls w'))
  = text_windows Toy.tokenizer Toy.text
  /\ concat (map attention_mask (generate_calls w'))
     = text_masks Toy.tokenizer Toy.text
  /\ Forall (fun b => (0 < length (input_ids b))%nat
                      /\ Z.of_nat (length (input_ids b)) <= 2)
       (generate_calls w').
Proof.
  intros w'.
  apply (returned_list_means_every_window_was_run Toy.tokenizer Toy.decode
           Toy.generate 2 Toy.never_cancelled Toy.text
           (spec_relations Toy.tokenizer Toy.decode Toy.generate 2 Toy.text)
           w').
  - lia.
  - vm_compute. reflexivity.
  - vm_compute. reflexivity.
Defined.

(** ** The triplet parser on well-formed streams (lines 11-55) *)

Section WellFormedStreams.

Lemma rstrip_last (s : str) (c : N) :
  PyStr.isspace c = false -> PyStr.rstrip (s ++ [c]) = s ++ [c].
Proof.
  intros Hc. unfold PyStr.rstrip. rewrite rev_app_distr. simpl.
  rewrite Hc. simpl. now rewrite rev_involutive.
Qed.

Lemma plain_parts (token : str) :
  plain token = true ->
  is_empty token = false
  /\ forallb (fun c => negb (PyStr.isspace c)) token = true
  /\ is_marker token = false.
Proof.
  unfold plain. intros H.
  apply andb_prop in H as [H Hm]. apply andb_prop in H as [He Hs].
  apply negb_true_iff in He, Hm. auto.
Qed.

(** A plain token, with anything before it, ends in a code point that
    [rstrip] keeps. *)
Lemma rstrip_plain_end (s token : str) :
  plain token = true -> PyStr.rstrip (s ++ token) = s ++ token.
Proof.
  intros Hp. destruct (plain_parts token Hp) as (He & Hs & _).
  destruct token as [|c0 token'] using rev_ind; [discriminate He|].
  rewrite forallb_app in Hs. apply andb_prop in Hs as [_ Hc].
  simpl in Hc. rewrite andb_true_r in Hc. apply negb_true_iff in Hc.
  rewrite app_assoc. now apply rstrip_last.
Qed.

Lemma rstrip_buffer_of (s : str) (ts : list str) :
  ts <> [] -> forallb plain ts = true ->
  PyStr.rstrip (s ++ buffer_of ts) = s ++ buffer_of ts.
Proof.
  revert s. induction ts as [|t ts IH]; intros s Hne Hp; [contradiction|].
  simpl in Hp. apply andb_prop in Hp as [Ht Hts].
  unfold buffer_of. cbn [map concat]. fold (buffer_of ts).
  destruct ts as [|t' ts'].
  - unfold buffer_of. cbn [map concat]. rewrite app_nil_r.
    rewrite app_assoc. now apply rstrip_plain_end.
  - rewrite !app_assoc. apply IH; [discriminate|exact Hts].
Qed.

(** [strip] takes the leading space off a buffer and nothing else. *)
Lemma strip_buffer_of (ts : list str) :
  forallb plain ts = true -> PyStr.strip (buffer_of ts) = join_tokens ts.
Proof.
  intros Hp. destruct ts as [|t ts]; [reflexivity|].
  pose proof Hp as Hp'. simpl in Hp'. apply andb_prop in Hp' as [Ht Hts].
  destruct (plain_parts t Ht) as (He & Hs & _).
  unfold PyStr.strip, buffer_of. cbn [map concat]. fold (buffer_of ts).
  destruct t as [|c t']; [discriminate He|].
  simpl in Hs. apply andb_prop in Hs as [Hc _]. apply negb_true_iff in Hc.
  assert (Hl : PyStr.lstrip ((lit " " ++ c :: t') ++ buffer_of ts)
               = (c :: t') ++ buffer_of ts).
  { cbn. now rewrite Hc. }
  rewrite Hl. cbn [join_tokens].
  destruct ts as [|t2 ts2].
  - unfold buffer_of. cbn [map concat]. rewrite app_nil_r.
    now apply (rstrip_plain_end []).
  - apply rstrip_buffer_of; [discriminate|exact Hts].
Qed.

Lemma buffer_of_app (ts us : list str) :
  buffer_of (ts ++ us) = buffer_of ts ++ buffer_of us.
Proof. unfold buffer_of. now rewrite map_app, concat_app. Qed.

Lemma buffer_of_nonempty (ts : list str) :
  ts <> [] -> is_empty (buffer_of ts) = false.
Proof. destruct ts; [contradiction|reflexivity]. Qed.

Lemma phrase_parts (ts : list str) :
  phrase_ok ts = true -> ts <> [] /\ forallb plain ts = true.
Proof.
  destruct ts; [discriminate|]. intros H. split; [discriminate|exact H].
Qed.

Lemma markers_not_plain (token : str) :
  is_marker token = false ->
  str_eqb token (lit "<triplet>") = false
  /\ str_eqb token (lit "<subj>") = false
  /\ str_eqb token (lit "<obj>") = false.
Proof.
  unfold is_marker. intros H.
  apply orb_false_elim in H as [H Ho]. apply orb_false_elim in H as [Ht Hs].
  auto.
Qed.

(** Plain tokens go to the buffer of the current mode. *)
Lemma collect_subject (ts : list str) (acc : list Relation)
    (s r o : str) :
  forallb plain ts = true ->
  fold_left parser_step ts
    {| relations := acc; subject := s; relation := r; object_ := o;
       current := cur_t |}
  = {| relations := acc; subject := s ++ buffer_of ts; relation := r;
       object_ := o; current := cur_t |}.
Proof.
  revert s. induction ts as [|t ts IH]; intros s Hp.
  - unfold buffer_of. simpl. now rewrite app_nil_r.
  - simpl in Hp. apply andb_prop in Hp as [Ht Hts].
    destruct (plain_parts t Ht) as (_ & _ & Hm).
    destruct (markers_not_plain t Hm) as (E1 & E2 & E3).
    cbn [fold_left]. unfold parser_step at 2. rewrite E1, E2, E3.
    cbn [current relations subject relation object_].
    rewrite IH by assumption.
    unfold buffer_of. cbn [map concat]. now rewrite <- !app_assoc.
Qed.

Lemma collect_object (ts : list str) (acc : list Relation)
    (s r o : str) :
  forallb plain ts = true ->
  fold_left parser_step ts
    {| relations := acc; subject := s; relation := r; object_ := o;
       current := cur_s |}
  = {| relations := acc; subject := s; relation := r;
       object_ := o ++ buffer_of ts; current := cur_s |}.
Proof.
  revert o. induction ts as [|t ts IH]; intros o Hp.
  - unfold buffer_of. simpl. now rewrite app_nil_r.
  - simpl in Hp. apply andb_prop in Hp as [Ht Hts].
    destruct (plain_parts t Ht) as (_ & _ & Hm).
    destruct (markers_not_plain t Hm) as (E1 & E2 & E3).
    cbn [fold_left]. unfold parser_step at 2. rewrite E1, E2, E3.
    cbn [current relations subject relation object_].
    rewrite IH by assumption.
    unfold buffer_of. cbn [map concat]. now rewrite <- !app_assoc.
Qed.

Lemma collect_relation (ts : list str) (acc : list Relation)
    (s r o : str) :
  forallb plain ts = true ->
  fold_left parser_step ts
    {| relations := acc; subject := s; relation := r; object_ := o;
       current := cur_o |}
  = {| relations := acc; subject := s; relation := r ++ buffer_of ts;
       object_ := o; current := cur_o |}.
Proof.
  revert r. induction ts as [|t ts IH]; intros r Hp.
  - unfold buffer_of. simpl. now rewrite app_nil_r.
  - simpl in Hp. apply andb_prop in Hp as [Ht Hts].
    destruct (plain_parts t Ht) as (_ & _ & Hm).
    destruct (markers_not_plain t Hm) as (E1 & E2 & E3).
    cbn [fold_left]. unfold parser_step at 2. rewrite E1, E2, E3.
    cbn [current relations subject relation object_].
    rewrite IH by assumption.
    unfold buffer_of. cbn [map concat]. now rewrite <- !app_assoc.
Qed.

End WellFormedStreams.

Section ReadingGroups.

Lemma step_on_triplet (st : ParserState) :
  parser_step st (lit "<triplet>")
  = if negb (is_empty (relation st)) then
      {| relations := relations st ++ [triplet_of st];
         subject := []; relation := []; object_ := object_ st;
         current := cur_t |}
    else
      {| relations := relations st;
         subject := []; relation := relation st; object_ := object_ st;
         current := cur_t |}.
Proof. reflexivity. Qed.

Lemma step_on_subj (st : ParserState) :
  parser_step st (lit "<subj>")
  = {| relations :=
         if negb (is_empty (relation st))
         then relations st ++ [triplet_of st] else relations st;
       subject := subject st; relation := relation st; object_ := [];
       current := cur_s |}.
Proof. reflexivity. Qed.

Lemma step_on_obj (st : ParserState) :
  parser_step st (lit "<obj>")
  = {| relations := relations st;
       subject := subject st; relation := []; object_ := object_ st;
       current := cur_o |}.
Proof. reflexivity. Qed.

Lemma triplet_of_state_after (acc : list Relation) (h t r : list str) :
  forallb plain h = true -> forallb plain t = true ->
  forallb plain r = true ->
  triplet_of (state_after acc h t r) = relation_of h t r.
Proof.
  intros Hh Ht Hr. unfold triplet_of, state_after, relation_of.
  cbn [subject relation object_]. now rewrite !strip_buffer_of.
Qed.

(** A tail and a relation type read while the relation buffer is empty:
    nothing is flushed. *)
Lemma read_pair_fresh (acc : list Relation) (s o : str) (c : Current)
    (t' r' : list str) :
  forallb plain t' = true -> forallb plain r' = true ->
  fold_left parser_step (encode_pair (t', r'))
    {| relations := acc; subject := s; relation := []; object_ := o;
       current := c |}
  = {| relations := acc; subject := s; relation := buffer_of r';
       object_ := buffer_of t'; current := cur_o |}.
Proof.
  intros Ht Hr. unfold encode_pair. cbn [fst snd fold_left].
  rewrite step_on_subj. cbn [relations subject relation object_ is_empty negb].
  rewrite fold_left_app, collect_object by assumption.
  cbn [fold_left]. rewrite step_on_obj.
  cbn [relations subject relation object_].
  now rewrite collect_relation.
Qed.

(** A further tail and relation type under the same head: the triplet read
    before is flushed at [<subj>]. *)
Lemma read_pair (acc : list Relation) (h t r t' r' : list str) :
  forallb plain h = true -> forallb plain t = true -> phrase_ok r = true ->
  forallb plain t' = true -> forallb plain r' = true ->
  fold_left parser_step (encode_pair (t', r')) (state_after acc h t r)
  = state_after (acc ++ [relation_of h t r]) h t' r'.
Proof.
  intros Hh Ht Hr Ht' Hr'. destruct (phrase_parts r Hr) as [Hne Hpr].
  unfold encode_pair. cbn [fst snd fold_left].
  rewrite step_on_subj, triplet_of_state_after by assumption.
  unfold state_after at 1 2 3 4. cbn [relations subject relation object_].
  rewrite (buffer_of_nonempty r Hne). cbn [negb].
  rewrite fold_left_app, collect_object by assumption.
  cbn [fold_left]. rewrite step_on_obj.
  cbn [relations subject relation object_].
  now rewrite collect_relation.
Qed.

(** A new head with its first tail and relation type: the triplet read
    before is flushed at [<triplet>]. *)
Lemma read_head (acc : list Relation) (h t r h' t' r' : list str) :
  forallb plain h = true -> forallb plain t = true -> phrase_ok r = true ->
  forallb plain h' = true -> forallb plain t' = true ->
  forallb plain r' = true ->
  fold_left parser_step (lit "<triplet>" :: h' ++ encode_pair (t', r'))
    (state_after acc h t r)
  = state_after (acc ++ [relation_of h t r]) h' t' r'.
Proof.
  intros Hh Ht Hr Hh' Ht' Hr'. destruct (phrase_parts r Hr) as [Hne Hpr].
  cbn [fold_left].
  rewrite step_on_triplet, triplet_of_state_after by assumption.
  unfold state_after at 1 2 3 4 5. cbn [relations subject relation object_].
  rewrite (buffer_of_nonempty r Hne). cbn [negb].
  rewrite fold_left_app, collect_subject by assumption.
  now rewrite read_pair_fresh.
Qed.

Lemma read_first (h' t' r' : list str) :
  forallb plain h' = true -> forallb plain t' = true ->
  forallb plain r' = true ->
  fold_left parser_step (lit "<triplet>" :: h' ++ encode_pair (t', r'))
    parser_init
  = state_after [] h' t' r'.
Proof.
  intros Hh' Ht' Hr'. cbn [fold_left]. rewrite step_on_triplet.
  unfold parser_init. cbn [relations subject relation object_ is_empty negb].
  rewrite fold_left_app, collect_subject by assumption.
  now rewrite read_pair_fresh.
Qed.

Lemma read_pairs (h : list str) (ps : list (list str * list str)) :
  forallb plain h = true -> forallb pair_ok ps = true ->
  forall (acc : list Relation) (t r : list str),
    phrase_ok t = true -> phrase_ok r = true ->
    exists (acc' : list Relation) (t' r' : list str),
      fold_left parser_step (flat_map encode_pair ps) (state_after acc h t r)
      = state_after acc' h t' r'
      /\ phrase_ok t' = true /\ phrase_ok r' = true
      /\ acc' ++ [relation_of h t' r']
         = (acc ++ [relation_of h t r])
             ++ map (fun p => relation_of h (fst p) (snd p)) ps.
Proof.
  intros Hh. induction ps as [|[t1 r1] ps IH]; intros Hps acc t r Ht Hr.
  - exists acc, t, r. simpl. now rewrite app_nil_r.
  - cbn [forallb] in Hps. apply andb_prop in Hps as [Hp1 Hps].
    unfold pair_ok in Hp1. cbn [fst snd] in Hp1.
    apply andb_prop in Hp1 as [Ht1 Hr1].
    cbn [flat_map]. rewrite fold_left_app.
    rewrite (read_pair acc h t r t1 r1 Hh (proj2 (phrase_parts t Ht)) Hr
               (proj2 (phrase_parts t1 Ht1)) (proj2 (phrase_parts r1 Hr1))).
    destruct (IH Hps (acc ++ [relation_of h t r]) t1 r1 Ht1 Hr1)
      as (acc' & t' & r' & Hfold & Ht' & Hr' & Hout).
    exists acc', t', r'. rewrite Hfold, Hout.
    cbn [map fst snd]. rewrite <- !app_assoc. auto.
Qed.

Lemma read_groups (gs : list Group) :
  forallb group_ok gs = true ->
  forall (acc : list Relation) (h t r : list str),
    phrase_ok h = true -> phrase_ok t = true -> phrase_ok r = true ->
    exists (acc' : list Relation) (h' t' r' : list str),
      fold_left parser_step (flat_map encode_group gs)
        (state_after acc h t r)
      = state_after acc' h' t' r'
      /\ phrase_ok h' = true /\ phrase_ok t' = true /\ phrase_ok r' = true
      /\ acc' ++ [relation_of h' t' r']
         = (acc ++ [relation_of h t r]) ++ flat_map decode_group gs.
Proof.
  induction gs as [|[h1 ps] gs IH]; intros Hgs acc h t r Hh Ht Hr.
  - exists acc, h, t, r. simpl. now rewrite app_nil_r.
  - cbn [forallb] in Hgs. apply andb_prop in Hgs as [Hg Hgs].
    unfold group_ok in Hg. cbn [fst snd] in Hg.
    apply andb_prop in Hg as [Hh1 Hps].
    destruct ps as [|[t1 r1] ps]; [discriminate Hps|].
    cbn [forallb] in Hps. apply andb_prop in Hps as [Hp1 Hps].
    unfold pair_ok in Hp1. cbn [fst snd] in Hp1.
    apply andb_prop in Hp1 as [Ht1 Hr1].
    cbn [flat_map]. unfold encode_group at 1. cbn [fst snd flat_map].
    rewrite fold_left_app.
    change (lit "<triplet>" :: h1 ++ encode_pair (t1, r1)
              ++ flat_map encode_pair ps)
      with ((lit "<triplet>" :: h1) ++ encode_pair (t1, r1)
              ++ flat_map encode_pair ps).
    rewrite app_assoc, fold_left_app.
    change ((lit "<triplet>" :: h1) ++ encode_pair (t1, r1))
      with (lit "<triplet>" :: h1 ++ encode_pair (t1, r1)).
    rewrite (read_head acc h t r h1 t1 r1 (proj2 (phrase_parts h Hh))
               (proj2 (phrase_parts t Ht)) Hr (proj2 (phrase_parts h1 Hh1))
               (proj2 (phrase_parts t1 Ht1)) (proj2 (phrase_parts r1 Hr1))).
    destruct (read_pairs h1 ps (proj2 (phrase_parts h1 Hh1)) Hps
                (acc ++ [relation_of h t r]) t1 r1 Ht1 Hr1)
      as (acc1 & t2 & r2 & Hfold1 & Ht2 & Hr2 & Hout1).
    rewrite Hfold1.
    destruct (IH Hgs acc1 h1 t2 r2 Hh1 Ht2 Hr2)
      as (acc' & h' & t' & r' & Hfold & Hh' & Ht' & Hr' & Hout).
    exists acc', h', t', r'. rewrite Hfold, Hout, Hout1.
    unfold decode_group at 2. cbn [map fst snd].
    rewrite <- !app_assoc. auto.
Qed.

Lemma finish_state_after (acc : list Relation) (h t r : list str) :
  phrase_ok h = true -> phrase_ok t = true -> phrase_ok r = true ->
  parser_finish (state_after acc h t r) = acc ++ [relation_of h t r].
Proof.
  intros Hh Ht Hr.
  destruct (phrase_parts h Hh) as [Hne1 Hp1].
  destruct (phrase_parts t Ht) as [Hne2 Hp2].
  destruct (phrase_parts r Hr) as [Hne3 Hp3].
  unfold parser_finish.
  rewrite triplet_of_state_after by assumption.
  unfold state_after. cbn [relations subject relation object_].
  now rewrite !buffer_of_nonempty.
Qed.

(** The loop and the final flush on the linear form of a list of groups. *)
Lemma parse_groups (gs : list Group) :
  forallb group_ok gs = true ->
  parser_finish (fold_left parser_step (flat_map encode_group gs) parser_init)
  = flat_map decode_group gs.
Proof.
  destruct gs as [|[h1 ps] gs]; intros Hgs; [reflexivity|].
  cbn [forallb] in Hgs. apply andb_prop in Hgs as [Hg Hgs].
  unfold group_ok in Hg. cbn [fst snd] in Hg.
  apply andb_prop in Hg as [Hh1 Hps].
  destruct ps as [|[t1 r1] ps]; [discriminate Hps|].
  cbn [forallb] in Hps. apply andb_prop in Hps as [Hp1 Hps].
  unfold pair_ok in Hp1. cbn [fst snd] in Hp1.
  apply andb_prop in Hp1 as [Ht1 Hr1].
  cbn [flat_map]. unfold encode_group at 1. cbn [fst snd flat_map].
  rewrite fold_left_app.
  change (lit "<triplet>" :: h1 ++ encode_pair (t1, r1)
            ++ flat_map encode_pair ps)
    with ((lit "<triplet>" :: h1) ++ encode_pair (t1, r1)
            ++ flat_map encode_pair ps).
  rewrite app_assoc, fold_left_app.
  change ((lit "<triplet>" :: h1) ++ encode_pair (t1, r1))
    with (lit "<triplet>" :: h1 ++ encode_pair (t1, r1)).
  rewrite (read_first h1 t1 r1 (proj2 (phrase_parts h1 Hh1))
             (proj2 (phrase_parts t1 Ht1)) (proj2 (phrase_parts r1 Hr1))).
  destruct (read_pairs h1 ps (proj2 (phrase_parts h1 Hh1)) Hps
              [] t1 r1 Ht1 Hr1)
    as (acc1 & t2 & r2 & Hfold1 & Ht2 & Hr2 & Hout1).
  rewrite Hfold1.
  destruct (read_groups gs Hgs acc1 h1 t2 r2 Hh1 Ht2 Hr2)
    as (acc' & h' & t' & r' & Hfold & Hh' & Ht' & Hr' & Hout).
  rewrite Hfold, finish_state_after by assumption.
  rewrite Hout, Hout1. unfold decode_group at 2. cbn [map fst snd app].
  reflexivity.
Qed.

End ReadingGroups.

(** X13.  Round trip.  When the token stream of the text is the linear
    form of a list of groups (a head phrase, then one or more pairs of a
    tail phrase and a relation-type phrase, all of plain tokens), the
    parser returns exactly the triplets of the groups, in order, each part
    being its tokens joined by single spaces. *)
Theorem parser_reads_back_linear_form (text : str) (gs : list Group) :
  token_stream text = flat_map encode_group gs ->
  forallb group_ok gs = true ->
  extract_relations_from_model_output text = flat_map decode_group gs.
Proof.
  intros Hstream Hok. unfold extract_relations_from_model_output.
  rewrite Hstream. now apply parse_groups.
Qed.

Lemma parser_reads_back_linear_form_witness :
  let text :=
    lit "<s><triplet> Alan Turing <subj> London <obj> place of birth <subj> 1912 <obj> born <triplet> Enigma <subj> Turing <obj> broken by</s><pad>" in
  let gs : list Group :=
    [([lit "Alan"; lit "Turing"],
      [([lit "London"], [lit "place"; lit "of"; lit "birth"]);
       ([lit "1912"], [lit "born"])]);
     ([lit "Enigma"], [([lit "Turing"], [lit "broken"; lit "by"])])] in
  extract_relations_from_model_output text = flat_map decode_group gs
  /\ length (flat_map decode_group gs) = 3%nat.
Proof.
  intros text gs. split; [|reflexivity].
  apply (parser_reads_back_linear_form text gs).
  - vm_compute. reflexivity.
  - vm_compute. reflexivity.
Defined.

(** ** The triplet parser on any stream (lines 11-55) *)

Section AnyStream.

Lemma step_without_obj (st : ParserState) (token : str) :
  str_eqb token (lit "<obj>") = false ->
  relations st = [] -> relation st = [] -> current st <> cur_o ->
  relations (parser_step st token) = []
  /\ relation (parser_step st token) = []
  /\ current (parser_step st token) <> cur_o.
Proof.
  intros Ho Hrs Hr Hc. unfold parser_step. rewrite Ho, Hr.
  cbn [is_empty negb].
  destruct (str_eqb token (lit "<triplet>"));
    [cbn [relations relation current]; repeat split;
     try assumption; discriminate|].
  destruct (str_eqb token (lit "<subj>"));
    [cbn [relations relation current]; repeat split;
     try assumption; discriminate|].
  destruct (current st) eqn:Ec;
    cbn [relations relation current]; rewrite ?Ec; repeat split;
    try assumption; try discriminate.
  all: now elim Hc.
Qed.

Lemma loop_without_obj (tokens : list str) (st : ParserState) :
  obj_free tokens = true ->
  relations st = [] -> relation st = [] -> current st <> cur_o ->
  parser_finish (fold_left parser_step tokens st) = [].
Proof.
  revert st. induction tokens as [|token tokens IH];
    intros st Hfree Hrs Hr Hc.
  - simpl. unfold parser_finish. rewrite Hr, Hrs. cbn.
    now rewrite andb_false_r.
  - cbn [obj_free forallb] in Hfree. apply andb_prop in Hfree as [Ho Hfree].
    apply negb_true_iff in Ho.
    destruct (step_without_obj st token Ho Hrs Hr Hc) as (H1 & H2 & H3).
    cbn [fold_left]. now apply IH.
Qed.

Lemma split_from_words (s word : str) :
  forallb (fun c => negb (PyStr.isspace c)) word = true ->
  Forall (fun token =>
            is_empty token = false
            /\ forallb (fun c => negb (PyStr.isspace c)) token = true)
    (PyStr.split_from word s).
Proof.
  revert word. induction s as [|c s IH]; intros word Hw; simpl.
  - destruct word; simpl; constructor; auto.
  - destruct (PyStr.isspace c) eqn:E.
    + destruct word as [|w word']; simpl.
      * now apply IH.
      * constructor; [auto|]. now apply IH.
    + apply IH. rewrite forallb_app, Hw. simpl. now rewrite E.
Qed.

(** Each token of the stream is a control marker or a plain token. *)
Lemma token_stream_words (text : str) :
  Forall (fun token => is_marker token = false -> plain token = true)
    (token_stream text).
Proof.
  unfold token_stream, PyStr.split.
  eapply Forall_impl; [|apply split_from_words; reflexivity].
  intros token [He Hs] Hm. unfold plain. now rewrite He, Hs, Hm.
Qed.

Lemma phrase_from_plain (tokens ts : list str) :
  phrase_from tokens ts -> forallb plain ts = true.
Proof.
  intros H. apply forallb_forall. intros t Ht.
  unfold phrase_from in H. rewrite Forall_forall in H. now apply H.
Qed.

Lemma phrase_from_snoc (tokens ts : list str) (token : str) :
  phrase_from tokens ts -> In token tokens -> plain token = true ->
  phrase_from tokens (ts ++ [token]).
Proof.
  intros H Hin Hp. apply Forall_app. split; [exact H|].
  constructor; [now split|constructor].
Qed.

Lemma buffer_of_snoc (ts : list str) (token : str) :
  buffer_of ts ++ lit " " ++ token = buffer_of (ts ++ [token]).
Proof.
  rewrite buffer_of_app. unfold buffer_of at 3. cbn [map concat].
  now rewrite app_nil_r.
Qed.

Lemma flushed_from_tokens (tokens : list str) (st : ParserState) :
  fields_inv tokens st -> from_tokens tokens (triplet_of st).
Proof.
  intros ((h & Eh & Hh) & (ty & Ety & Hty) & (t & Et & Ht) & _).
  exists h, t, ty. repeat split; try assumption.
  unfold triplet_of, relation_of. rewrite Eh, Ety, Et.
  now rewrite !strip_buffer_of by (eapply phrase_from_plain; eassumption).
Qed.

Lemma parser_step_fields (tokens : list str) (st : ParserState)
    (token : str) :
  In token tokens -> (is_marker token = false -> plain token = true) ->
  fields_inv tokens st -> fields_inv tokens (parser_step st token).
Proof.
  intros Hin Hplain Hinv.
  pose proof (flushed_from_tokens tokens st Hinv) as Hflush.
  destruct Hinv as (Hs & Hr & Ho & Hrs).
  assert (Hnil : exists ts : list str,
             @nil N = buffer_of ts /\ phrase_from tokens ts)
    by (exists []; split; [reflexivity|constructor]).
  assert (Hrs' : Forall (from_tokens tokens)
                   (relations st ++ [triplet_of st]))
    by (apply Forall_app; split; [exact Hrs|now constructor]).
  unfold parser_step, is_marker in *.
  destruct (str_eqb token (lit "<triplet>")).
  { destruct (is_empty (relation st)); cbn [negb];
      unfold fields_inv; cbn [relations subject relation object_]; auto. }
  destruct (str_eqb token (lit "<subj>")).
  { unfold fields_inv; cbn [relations subject relation object_].
    destruct (is_empty (relation st)); cbn [negb]; auto. }
  destruct (str_eqb token (lit "<obj>")).
  { unfold fields_inv; cbn [relations subject relation object_]; auto. }
  specialize (Hplain eq_refl).
  destruct (current st); unfold fields_inv;
    cbn [relations subject relation object_]; auto.
  - destruct Hs as (h & -> & Hh). repeat split; auto.
    exists (h ++ [token]). split; [apply buffer_of_snoc|].
    now apply phrase_from_snoc.
  - destruct Ho as (t & -> & Ht). repeat split; auto.
    exists (t ++ [token]). split; [apply buffer_of_snoc|].
    now apply phrase_from_snoc.
  - destruct Hr as (ty & -> & Hty). repeat split; auto.
    exists (ty ++ [token]). split; [apply buffer_of_snoc|].
    now apply phrase_from_snoc.
Qed.

Lemma parser_loop_fields (tokens rest : list str) (st : ParserState) :
  (forall token, In token rest -> In token tokens) ->
  Forall (fun token => is_marker token = false -> plain token = true) rest ->
  fields_inv tokens st ->
  fields_inv tokens (fold_left parser_step rest st).
Proof.
  revert st. induction rest as [|token rest IH]; intros st Hsub Hw Hinv.
  - exact Hinv.
  - inversion Hw as [|? ? Hw1 Hw2]; subst. cbn [fold_left].
    apply IH; [intros t Ht; apply Hsub; now right|exact Hw2|].
    apply parser_step_fields; [apply Hsub; now left|exact Hw1|exact Hinv].
Qed.

Lemma parser_finish_fields (tokens : list str) (st : ParserState) :
  fields_inv tokens st -> Forall (from_tokens tokens) (parser_finish st).
Proof.
  intros Hinv. pose proof (flushed_from_tokens tokens st Hinv) as Hflush.
  destruct Hinv as (_ & _ & _ & Hrs). unfold parser_finish.
  destruct (negb (is_empty (subject st)) && negb (is_empty (relation st))
            && negb (is_empty (object_ st))); [|exact Hrs].
  apply Forall_app. split; [exact Hrs|now constructor].
Qed.

End AnyStream.

(** X14.  Without an [<obj>] marker in the token stream the parser emits
    nothing: the relation-type buffer is filled only after [<obj>], and
    every flush asks for it to be non-empty. *)
Theorem no_obj_marker_no_triplet (text : str) :
  obj_free (token_stream text) = true ->
  extract_relations_from_model_output text = [].
Proof.
  intros Hfree. unfold extract_relations_from_model_output.
  apply loop_without_obj; [exact Hfree|reflexivity|reflexivity|discriminate].
Qed.

Lemma no_obj_marker_no_triplet_witness :
  extract_relations_from_model_output
    (lit "<triplet> Alan Turing <subj> London <subj> 1912 <triplet> Enigma")
  = [].
Proof.
  apply (no_obj_marker_no_triplet
           (lit "<triplet> Alan Turing <subj> London <subj> 1912 <triplet> Enigma")).
  vm_compute. reflexivity.
Defined.

(** X15.  Tokens before the first control marker are discarded: a stream
    that begins with marker-free tokens gives the same triplets as the
    stream without them. *)
Theorem leading_tokens_are_discarded (text text' : str) (junk : list str) :
  marker_free junk = true ->
  token_stream text = junk ++ token_stream text' ->
  extract_relations_from_model_output text
  = extract_relations_from_model_output text'.
Proof.
  intros Hfree Hstream. unfold extract_relations_from_model_output.
  rewrite Hstream, fold_left_app.
  now rewrite (parser_loop_idle junk parser_init eq_refl Hfree).
Qed.

Lemma leading_tokens_are_discarded_witness :
  extract_relations_from_model_output
    (lit "so it says <triplet> A B <subj> C <obj> D")
  = extract_relations_from_model_output
      (lit "<triplet> A B <subj> C <obj> D").
Proof.
  apply (leading_tokens_are_discarded
           (lit "so it says <triplet> A B <subj> C <obj> D")
           (lit "<triplet> A B <subj> C <obj> D")
           [lit "so"; lit "it"; lit "says"]).
  - vm_compute. reflexivity.
  - vm_compute. reflexivity.
Defined.

(** X16.  The relation type is not cleared by the flush at [<subj>]
    (line 32): when the stream ends after a further tail, with no [<obj>]
    of its own, the final flush emits that tail with the relation type of
    the triplet before it. *)
Theorem truncated_pair_reuses_relation_type (text : str)
    (h t r t2 : list str) :
  phrase_ok h = true -> phrase_ok t = true -> phrase_ok r = true ->
  phrase_ok t2 = true ->
  token_stream text
  = (lit "<triplet>" :: h ++ encode_pair (t, r)) ++ lit "<subj>" :: t2 ->
  extract_relations_from_model_output text
  = [relation_of h t r; relation_of h t2 r].
Proof.
  intros Hh Ht Hr Ht2 Hstream.
  destruct (phrase_parts h Hh) as [Hne1 Hp1].
  destruct (phrase_parts t Ht) as [Hne2 Hp2].
  destruct (phrase_parts r Hr) as [Hne3 Hp3].
  destruct (phrase_parts t2 Ht2) as [Hne4 Hp4].
  unfold extract_relations_from_model_output.
  rewrite Hstream, fold_left_app, read_first by assumption.
  cbn [fold_left]. rewrite step_on_subj, triplet_of_state_after by assumption.
  unfold state_after at 1 2 3 4. cbn [relations subject relation object_].
  rewrite (buffer_of_nonempty r Hne3). cbn [negb app].
  rewrite collect_object by assumption. cbn [app].
  unfold parser_finish, triplet_of, state_after.
  cbn [relations subject relation object_].
  rewrite !buffer_of_nonempty by assumption. cbn [negb andb].
  now rewrite !strip_buffer_of by assumption.
Qed.

Lemma truncated_pair_reuses_relation_type_witness :
  extract_relations_from_model_output
    (lit "<triplet> Alan Turing <subj> London <obj> born in <subj> 1912")
  = [relation_of [lit "Alan"; lit "Turing"] [lit "London"]
       [lit "born"; lit "in"];
     relation_of [lit "Alan"; lit "Turing"] [lit "1912"]
       [lit "born"; lit "in"]].
Proof.
  apply (truncated_pair_reuses_relation_type
           (lit "<triplet> Alan Turing <subj> London <obj> born in <subj> 1912")
           [lit "Alan"; lit "Turing"] [lit "London"] [lit "born"; lit "in"]
           [lit "1912"]); vm_compute; reflexivity.
Defined.

(** X17.  Whatever the input, each part of each emitted triplet is a
    (possibly empty) sequence of tokens of the stream, none of them a
    control marker, joined by single spaces: the parser adds no text of
    its own, and no marker, no run of white space and no leading or
    trailing space ends up in a head, a type or a tail. *)
Theorem triplet_parts_are_stream_tokens (text : str) :
  Forall (from_tokens (token_stream text))
    (extract_relations_from_model_output text).
Proof.
  unfold extract_relations_from_model_output.
  apply parser_finish_fields, parser_loop_fields.
  - auto.
  - apply token_stream_words.
  - unfold fields_inv, parser_init. cbn [relations subject relation object_].
    repeat split; try (exists []; split; [reflexivity|constructor]).
    constructor.
Qed.
